(** * BTreeIndex: a shallow embedding of [BTreeIndex.cc]

    The index object of the B+tree project: [open], [close], [insert],
    [locate], [readForward], [getRoot] and [getHeight], written as
    state-passing functions over the fields of the C++ object
    ([pf], [rootPid], [treeHeight], [buffer]).

    C++ [int] values (page ids, keys, heights, result codes) are integers
    of [Z] kept in the 32-bit two's complement range; arithmetic that can
    leave the range is wrapped explicitly with [int32].  A page buffer is a
    list of bytes, each byte a [Z] in [0, 256). *)

From Stdlib Require Import String Ascii.
From Stdlib Require Import ZArith List Bool Lia.
From Stdlib Require Decimal DecimalString DecimalZ DecimalPos.
Import ListNotations.
Open Scope list_scope.
Open Scope Z_scope.

(** ** Machine integers and raw buffers *)

Definition INT_MIN : Z := - 2 ^ 31.
Definition INT_MAX : Z := 2 ^ 31 - 1.

(** Two's complement wrap-around of a 32-bit [int]. *)
Definition int32 (x : Z) : Z := (x + 2 ^ 31) mod 2 ^ 32 - 2 ^ 31.

Definition in_int (x : Z) : Prop := INT_MIN <= x <= INT_MAX.

Definition RC := Z.
Definition PageId := Z.
Definition Buffer := list Z.

(** The four bytes of an [int] as [memcpy] sees them (least significant
    byte first, the order of the machines the project targets). *)
Definition int_bytes (x : Z) : list Z :=
  [ Z.land x 255;
    Z.land (Z.shiftr x 8) 255;
    Z.land (Z.shiftr x 16) 255;
    Z.land (Z.shiftr x 24) 255 ].

Definition bytes_int (bs : list Z) : Z :=
  int32 (nth 0 bs 0
         + Z.shiftl (nth 1 bs 0) 8
         + Z.shiftl (nth 2 bs 0) 16
         + Z.shiftl (nth 3 bs 0) 24).

(** [memcpy(buffer + off, &x, sizeof(int))] *)
Definition memcpy_to (buffer : Buffer) (off : nat) (src : list Z) : Buffer :=
  firstn off buffer ++ src ++ skipn (off + length src) buffer.

(** [memcpy(&x, buffer + off, sizeof(int))] *)
Definition memcpy_from (buffer : Buffer) (off : nat) : Z :=
  bytes_int (firstn 4 (skipn off buffer)).

(** [memset(buffer, 0, sizeof(buffer))] *)
Definition zero_buffer (size : nat) : Buffer := repeat 0 size.

(** ** Page storage

    The paged file is an external collaborator; the index only sees the
    calls below.  [pf_read] fills the caller's buffer and is a [const]
    method, so it returns no new file state; the other calls do. *)

Class PageFile (PF : Type) : Type := {
  PAGE_SIZE : nat;
  pf_new : PF;
  pf_open : PF -> string -> ascii -> RC * PF;
  pf_close : PF -> RC * PF;
  pf_read : PF -> PageId -> Buffer -> RC * Buffer;
  pf_write : PF -> PageId -> Buffer -> RC * PF;
  pf_endPid : PF -> PageId
}.

(** Result codes named in [BTreeIndex.cc] and in the contract of the nodes.
    Their numeric values live in a header outside the two source files, so
    they are taken as parameters; all that the index relies on is that an
    error is negative ([rc < 0]). *)
Record ErrorCodes : Type := {
  RC_INVALID_CURSOR : RC;
  RC_NO_SUCH_RECORD : RC;
  RC_INVALID_INDEX : RC;
  RC_INVALID_CURSOR_neg : RC_INVALID_CURSOR < 0;
  RC_NO_SUCH_RECORD_neg : RC_NO_SUCH_RECORD < 0;
  RC_INVALID_INDEX_neg : RC_INVALID_INDEX < 0
}.

(** ** Records, cursors and nodes *)

Record RecordId : Type := { rid_pid : PageId; rid_sid : Z }.

Record IndexCursor : Type := { pid : PageId; eid : Z }.

Record LeafData : Type := {
  leaf_entries : list (Z * RecordId);
  nextLeafPointer : PageId
}.

Record NonLeafData : Type := {
  first_child : PageId;
  key_children : list (Z * PageId)
}.

(** The byte layout of a node page is implementation-defined: it is a
    parameter of the development. *)
Record NodeLayout : Type := {
  decode_leaf : Buffer -> LeafData;
  decode_nonleaf : Buffer -> NonLeafData
}.

Record BTLeafNode : Type := { leaf_buffer : Buffer }.
Record BTNonLeafNode : Type := { nonleaf_buffer : Buffer }.

(** Position of the first element satisfying [p], counted from [i]. *)
Fixpoint find_index {A : Type} (p : A -> bool) (l : list A) (i : Z) : option Z :=
  match l with
  | [] => None
  | x :: l' => if p x then Some i else find_index p l' (i + 1)
  end.

Section Nodes.
Context {PF : Type} `{PageFile PF}.
Variable codes : ErrorCodes.
Variable layout : NodeLayout.

(** Modelled from the spec: the node classes of [BTreeNode.cc] are used by
    the index but are not among the source files.  A node is the
    in-memory copy of one page; its operations follow the contract of
    section 4.1 (leaf) and 4.2 (internal node) of the specification. *)
Definition BTLeafNode_new : BTLeafNode :=
  {| leaf_buffer := zero_buffer PAGE_SIZE |}.

(** Modelled from the spec: see [BTLeafNode_new]. *)
Definition BTNonLeafNode_new : BTNonLeafNode :=
  {| nonleaf_buffer := zero_buffer PAGE_SIZE |}.

(** Modelled from the spec: [read(pid, storage)] loads the node from the
    page and fails with the storage's error if the page cannot be read. *)
Definition leaf_read (node : BTLeafNode) (p : PageId) (f : PF)
  : RC * BTLeafNode :=
  let '(rc, buf) := pf_read f p (leaf_buffer node) in
  (rc, {| leaf_buffer := buf |}).

(** Modelled from the spec: see [leaf_read]. *)
Definition nonleaf_read (node : BTNonLeafNode) (p : PageId) (f : PF)
  : RC * BTNonLeafNode :=
  let '(rc, buf) := pf_read f p (nonleaf_buffer node) in
  (rc, {| nonleaf_buffer := buf |}).

Definition leaf_data (node : BTLeafNode) : LeafData :=
  decode_leaf layout (leaf_buffer node).

Definition nonleaf_data (node : BTNonLeafNode) : NonLeafData :=
  decode_nonleaf layout (nonleaf_buffer node).

(** Modelled from the spec: [getKeyCount()] is the number of entries
    currently stored. *)
Definition leaf_getKeyCount (node : BTLeafNode) : Z :=
  Z.of_nat (length (leaf_entries (leaf_data node))).

(** Modelled from the spec: the sibling chain accessor. *)
Definition leaf_getNextNodePtr (node : BTLeafNode) : PageId :=
  nextLeafPointer (leaf_data node).

(** The entry index holding [searchKey], if any. *)
Definition key_index (entries : list (Z * RecordId)) (searchKey : Z)
  : option Z :=
  find_index (fun e => fst e =? searchKey) entries 0.

(** The insertion point: the first entry index whose key is at least
    [searchKey], the entry count when every key is smaller. *)
Definition insertion_point (entries : list (Z * RecordId)) (searchKey : Z)
  : Z :=
  match find_index (fun e => searchKey <=? fst e) entries 0 with
  | Some i => i
  | None => Z.of_nat (length entries)
  end.

(** Modelled from the spec: [locate(searchKey)] searches for the entry
    index holding [searchKey]; when the key is absent it fails with
    NotFound and sets the entry index to the insertion point. *)
Definition leaf_locate (node : BTLeafNode) (searchKey : Z) : RC * Z :=
  let entries := leaf_entries (leaf_data node) in
  match key_index entries searchKey with
  | Some i => (0, i)
  | None => (RC_NO_SUCH_RECORD codes, insertion_point entries searchKey)
  end.

(** Modelled from the spec: [readEntry(eid)] yields the (key, locator)
    pair at [eid] and fails with InvalidIndex when [eid] is out of the
    current bounds, leaving the output arguments as they were. *)
Definition leaf_readEntry (node : BTLeafNode) (e : Z) (out : Z * RecordId)
  : RC * (Z * RecordId) :=
  if (e <? 0) || (leaf_getKeyCount node <=? e)
  then (RC_INVALID_INDEX codes, out)
  else (0, nth (Z.to_nat e) (leaf_entries (leaf_data node)) out).

(** The child to the left of the first key strictly greater than
    [searchKey]; the last child when no key is greater. *)
Fixpoint route (child : PageId) (kcs : list (Z * PageId)) (searchKey : Z)
  : PageId :=
  match kcs with
  | [] => child
  | (k, c) :: kcs' => if searchKey <? k then child else route c kcs' searchKey
  end.

(** Modelled from the spec: [locateChildPtr(searchKey)] returns the child
    pointer to descend into. *)
Definition nonleaf_locateChildPtr (node : BTNonLeafNode) (searchKey : Z)
  : RC * PageId :=
  let d := nonleaf_data node in
  (0, route (first_child d) (key_children d) searchKey).

End Nodes.

(** ** The index object *)

Record BTreeIndex (PF : Type) : Type := {
  pf : PF;
  rootPid : PageId;
  treeHeight : Z;
  buffer : Buffer
}.

Arguments pf {PF} _.
Arguments rootPid {PF} _.
Arguments treeHeight {PF} _.
Arguments buffer {PF} _.

Section Index.
Context {PF : Type} `{PageFile PF}.
Variable codes : ErrorCodes.
Variable layout : NodeLayout.

Definition set_pf (this : BTreeIndex PF) (f : PF) : BTreeIndex PF :=
  {| pf := f; rootPid := rootPid this; treeHeight := treeHeight this;
     buffer := buffer this |}.

Definition set_rootPid (this : BTreeIndex PF) (p : PageId) : BTreeIndex PF :=
  {| pf := pf this; rootPid := p; treeHeight := treeHeight this;
     buffer := buffer this |}.

Definition set_treeHeight (this : BTreeIndex PF) (h : Z) : BTreeIndex PF :=
  {| pf := pf this; rootPid := rootPid this; treeHeight := h;
     buffer := buffer this |}.

Definition set_buffer (this : BTreeIndex PF) (b : Buffer) : BTreeIndex PF :=
  {| pf := pf this; rootPid := rootPid this; treeHeight := treeHeight this;
     buffer := b |}.

(** [BTreeIndex::BTreeIndex()] *)
Definition BTreeIndex_new : BTreeIndex PF :=
  {| pf := pf_new; rootPid := -1; treeHeight := 0;
     buffer := zero_buffer PAGE_SIZE |}.

(** [BTreeIndex::open] *)
Definition open (indexname : string) (mode : ascii) (this : BTreeIndex PF)
  : RC * BTreeIndex PF :=
  let '(rc, f) := pf_open (pf this) indexname mode in
  let this := set_pf this f in
  if rc <? 0 then (rc, this)
  else if pf_endPid (pf this) =? 0 then
    let this := set_rootPid this (-1) in
    let this := set_treeHeight this 0 in
    let '(rc, f) := pf_write (pf this) 0 (buffer this) in
    let this := set_pf this f in
    if rc <? 0 then (rc, this) else (rc, this)
  else
    let '(rc, buf) := pf_read (pf this) 0 (buffer this) in
    let this := set_buffer this buf in
    if rc <? 0 then (rc, this)
    else
      let loadPid := memcpy_from (buffer this) 0 in
      let loadHeight := memcpy_from (buffer this) 4 in
      if (loadPid >? 0) && (loadHeight >=? 0)
      then (rc, set_treeHeight (set_rootPid this loadPid) loadHeight)
      else (rc, this).

(** [BTreeIndex::close]: both [memcpy] calls write at offset 0 of
    [buffer], as in the source. *)
Definition close (this : BTreeIndex PF) : RC * BTreeIndex PF :=
  let this := set_buffer this (memcpy_to (buffer this) 0 (int_bytes (rootPid this))) in
  let this := set_buffer this (memcpy_to (buffer this) 0 (int_bytes (treeHeight this))) in
  let '(rc, f) := pf_write (pf this) 0 (buffer this) in
  let this := set_pf this f in
  if rc <? 0 then (rc, this)
  else
    let '(rc, f) := pf_close (pf this) in
    let this := set_pf this f in
    (rc, this).

(** [BTreeIndex::insert]: the body of the source is [return 0;]. *)
Definition insert (key : Z) (rid : RecordId) (this : BTreeIndex PF)
  : RC * BTreeIndex PF :=
  (0, this).

(** The [while (curHeight != treeHeight)] loop of [locate].  The result is
    [inl rc] when the body returns early with an error, [inr nextChild]
    when the loop exits, and [None] when [fuel] runs out. *)
Fixpoint locate_loop (fuel : nat) (f : PF) (searchKey height : Z)
    (nonLeafNode : BTNonLeafNode) (curHeight : Z) (nextChild : PageId)
  : option (RC + PageId) :=
  match fuel with
  | O => None
  | S fuel' =>
    if negb (curHeight =? height) then
      let '(rc, nonLeafNode) := nonleaf_read nonLeafNode nextChild f in
      if rc <? 0 then Some (inl rc)
      else
        let '(rc, nextChild) := nonleaf_locateChildPtr layout nonLeafNode searchKey in
        if rc <? 0 then Some (inl rc)
        else locate_loop fuel' f searchKey height nonLeafNode
                         (int32 (curHeight + 1)) nextChild
    else Some (inr nextChild)
  end.

(** A descent through exactly [levels] internal nodes, as the
    specification words it: at each level the node is read and
    [locateChildPtr] picks the child; an error ends the descent at once. *)
Fixpoint descend_levels (f : PF) (searchKey : Z) (levels : nat)
    (node : BTNonLeafNode) (child : PageId)
  : RC + PageId :=
  match levels with
  | O => inr child
  | S levels' =>
    let '(rc, node) := nonleaf_read node child f in
    if rc <? 0 then inl rc
    else
      let '(rc, child) := nonleaf_locateChildPtr layout node searchKey in
      if rc <? 0 then inl rc else descend_levels f searchKey levels' node child
  end.

(** The number of times the loop test can be evaluated before
    [curHeight], counting up from 1 with wrap-around, meets [height]. *)
Definition locate_fuel (height : Z) : nat :=
  S (Z.to_nat ((height - 1) mod 2 ^ 32)).

(** [BTreeIndex::locate] *)
Definition locate (searchKey : Z) (cursor : IndexCursor) (this : BTreeIndex PF)
  : option (RC * IndexCursor * BTreeIndex PF) :=
  let nonLeafNode := BTNonLeafNode_new in
  let leafNode := BTLeafNode_new in
  let curHeight := 1 in
  let nextChild := rootPid this in
  match locate_loop (locate_fuel (treeHeight this)) (pf this) searchKey
                    (treeHeight this) nonLeafNode curHeight nextChild with
  | None => None
  | Some (inl rc) => Some (rc, cursor, this)
  | Some (inr nextChild) =>
    let '(rc, leafNode) := leaf_read leafNode nextChild (pf this) in
    if rc <? 0 then Some (rc, cursor, this)
    else
      let '(rc, e) := leaf_locate codes layout leafNode searchKey in
      if rc <? 0
      then Some (rc, {| pid := nextChild; eid := e |}, this)
      else Some (rc, {| pid := nextChild; eid := e |}, this)
  end.

(** [BTreeIndex::readForward]; [key] and [rid] are the values the output
    arguments hold at the call. *)
Definition readForward (cursor : IndexCursor) (key : Z) (rid : RecordId)
    (this : BTreeIndex PF)
  : RC * IndexCursor * (Z * RecordId) * BTreeIndex PF :=
  let leafNode := BTLeafNode_new in
  let '(rc, leafNode) := leaf_read leafNode (pid cursor) (pf this) in
  if rc <? 0 then (rc, cursor, (key, rid), this)
  else
    let '(rc, out) := leaf_readEntry codes layout leafNode (eid cursor) (key, rid) in
    if rc <? 0 then (rc, cursor, out, this)
    else if pid cursor <=? 0 then (RC_INVALID_CURSOR codes, cursor, out, this)
    else if int32 (eid cursor + 1) <? leaf_getKeyCount layout leafNode
    then (rc, {| pid := pid cursor; eid := int32 (eid cursor + 1) |}, out, this)
    else (rc, {| pid := leaf_getNextNodePtr layout leafNode; eid := 0 |}, out, this).

(** [BTreeIndex::getRoot] *)
Definition getRoot (this : BTreeIndex PF) : PageId := rootPid this.

(** [BTreeIndex::getHeight] *)
Definition getHeight (this : BTreeIndex PF) : Z := treeHeight this.

End Index.

(** ** An in-memory page file

    A page storage to run the index on: a list of pages, an open flag, the
    access mode and the list of state-changing calls received so far (most
    recent first). *)

Inductive FileCall : Type :=
| CallOpen (mode : ascii)
| CallWrite (p : PageId)
| CallClose.

Record MemFile : Type := {
  mf_pages : list Buffer;
  mf_opened : bool;
  mf_writable : bool;
  mf_calls : list FileCall
}.

(** Modelled from the spec: the error taxonomy has one code, IOError, for
    every failure of the page storage. *)
Definition IOError : RC := -1.

Definition MEM_PAGE_SIZE : nat := 64.

Definition mem_new : MemFile :=
  {| mf_pages := []; mf_opened := false; mf_writable := false; mf_calls := [] |}.

Definition mem_log (c : FileCall) (f : MemFile) : MemFile :=
  {| mf_pages := mf_pages f; mf_opened := mf_opened f;
     mf_writable := mf_writable f; mf_calls := c :: mf_calls f |}.

(** Modelled from the spec: [open(name, mode)]; ['r'] opens for reading,
    ['w'] for reading and writing, any other mode is refused.  The file is
    the one held by the [MemFile] value, whatever the name. *)
Definition mem_open (f : MemFile) (name : string) (mode : ascii) : RC * MemFile :=
  let f := mem_log (CallOpen mode) f in
  if Ascii.eqb mode "r" then
    (0, {| mf_pages := mf_pages f; mf_opened := true; mf_writable := false;
           mf_calls := mf_calls f |})
  else if Ascii.eqb mode "w" then
    (0, {| mf_pages := mf_pages f; mf_opened := true; mf_writable := true;
           mf_calls := mf_calls f |})
  else (IOError, f).

(** Modelled from the spec: [close()]. *)
Definition mem_close (f : MemFile) : RC * MemFile :=
  let f := mem_log CallClose f in
  if mf_opened f then
    (0, {| mf_pages := mf_pages f; mf_opened := false; mf_writable := false;
           mf_calls := mf_calls f |})
  else (IOError, f).

(** Modelled from the spec: [endPageId()], the count of allocated pages. *)
Definition mem_endPid (f : MemFile) : PageId := Z.of_nat (length (mf_pages f)).

(** Modelled from the spec: [read(pageId, buffer)]. *)
Definition mem_read (f : MemFile) (p : PageId) (buf : Buffer) : RC * Buffer :=
  if mf_opened f && (0 <=? p) && (p <? mem_endPid f)
  then (0, nth (Z.to_nat p) (mf_pages f) buf)
  else (IOError, buf).

Fixpoint put_page (pages : list Buffer) (n : nat) (buf : Buffer) : list Buffer :=
  match n, pages with
  | O, [] => [buf]
  | O, _ :: rest => buf :: rest
  | S n', [] => zero_buffer MEM_PAGE_SIZE :: put_page [] n' buf
  | S n', pg :: rest => pg :: put_page rest n' buf
  end.

(** Modelled from the spec: [write(pageId, buffer)]; writing past the end
    allocates the pages up to [pageId]. *)
Definition mem_write (f : MemFile) (p : PageId) (buf : Buffer) : RC * MemFile :=
  let f := mem_log (CallWrite p) f in
  if mf_opened f && mf_writable f && (0 <=? p)
  then (0, {| mf_pages := put_page (mf_pages f) (Z.to_nat p) buf;
              mf_opened := mf_opened f; mf_writable := mf_writable f;
              mf_calls := mf_calls f |})
  else (IOError, f).

#[export] Instance MemPageFile : PageFile MemFile := {
  PAGE_SIZE := MEM_PAGE_SIZE;
  pf_new := mem_new;
  pf_open := mem_open;
  pf_close := mem_close;
  pf_read := mem_read;
  pf_write := mem_write;
  pf_endPid := mem_endPid
}.

(** Result codes for the runs below: distinct negative numbers. *)
Definition mem_codes : ErrorCodes :=
  {| RC_INVALID_CURSOR := -1011;
     RC_NO_SUCH_RECORD := -1012;
     RC_INVALID_INDEX := -1013;
     RC_INVALID_CURSOR_neg := eq_refl;
     RC_NO_SUCH_RECORD_neg := eq_refl;
     RC_INVALID_INDEX_neg := eq_refl |}.

(** A node layout for the runs below.  Both kinds of node start with the
    key count at offset 0 and a page id at offset 4 (the next leaf, or the
    first child); a leaf continues with 12-byte entries (key, record page,
    record slot), an internal node with 8-byte (key, child) pairs. *)
Definition entry_count (buf : Buffer) (width : Z) : nat :=
  Z.to_nat (Z.min (Z.max (memcpy_from buf 0) 0)
                  ((Z.of_nat (length buf) - 8) / width)).

Definition flat_decode_leaf (buf : Buffer) : LeafData :=
  {| leaf_entries :=
       map (fun i : nat =>
              (memcpy_from buf (8 + 12 * i),
               {| rid_pid := memcpy_from buf (12 + 12 * i);
                  rid_sid := memcpy_from buf (16 + 12 * i) |}))
           (seq 0 (entry_count buf 12));
     nextLeafPointer := memcpy_from buf 4 |}.

Definition flat_decode_nonleaf (buf : Buffer) : NonLeafData :=
  {| first_child := memcpy_from buf 4;
     key_children :=
       map (fun i : nat =>
              (memcpy_from buf (8 + 8 * i), memcpy_from buf (12 + 8 * i)))
           (seq 0 (entry_count buf 8)) |}.

Definition flat_layout : NodeLayout :=
  {| decode_leaf := flat_decode_leaf; decode_nonleaf := flat_decode_nonleaf |}.

(** A page holding the given [int]s from offset 0, zero-filled. *)
Definition page_of_ints (xs : list Z) : Buffer :=
  firstn MEM_PAGE_SIZE (flat_map int_bytes xs ++ zero_buffer MEM_PAGE_SIZE).

(** The tree of the worked scenario of the specification: leaves
    [10,20,30] on page 1 and [40,50] on page 2, chained; the root on page 3
    with the separator 40; page 0 holds the metadata (root 3, height 2). *)
Definition scenario_pages : list Buffer :=
  [ page_of_ints [3; 2];
    page_of_ints [3; 2; 10; 1; 0; 20; 1; 1; 30; 1; 2];
    page_of_ints [2; 0; 40; 1; 3; 50; 1; 4];
    page_of_ints [1; 1; 40; 2] ].

Definition scenario_file : MemFile :=
  {| mf_pages := scenario_pages; mf_opened := false; mf_writable := false;
     mf_calls := [] |}.

Definition scenario_index : BTreeIndex MemFile :=
  snd (open "movie.idx" "w"
            {| pf := scenario_file; rootPid := -1; treeHeight := 0;
               buffer := zero_buffer MEM_PAGE_SIZE |}).

(** A fresh index opened on a file that does not exist yet. *)
Definition empty_index : BTreeIndex MemFile :=
  snd (open "movie.idx" "w" BTreeIndex_new).

Definition cursor0 : IndexCursor := {| pid := 0; eid := 0 |}.
Definition rid0 : RecordId := {| rid_pid := 0; rid_sid := 0 |}.

(** A file whose metadata page is zero-initialized. *)
Definition blank_file : MemFile :=
  {| mf_pages := [zero_buffer MEM_PAGE_SIZE]; mf_opened := false;
     mf_writable := false; mf_calls := [] |}.

Definition blank_index : BTreeIndex MemFile :=
  snd (open "movie.idx" "r" (set_pf BTreeIndex_new blank_file)).

(** The scenario file opened for reading only: every write is refused. *)
Definition readonly_index : BTreeIndex MemFile :=
  snd (open "movie.idx" "r"
            {| pf := scenario_file; rootPid := -1; treeHeight := 0;
               buffer := zero_buffer MEM_PAGE_SIZE |}).

(** The page storage received a call to close between the two states. *)
Definition storage_close_attempted (before after : MemFile) : Prop :=
  exists calls : list FileCall,
    mf_calls after = calls ++ mf_calls before /\ In CallClose calls.

(** ** Scanning with the cursor *)

Section Scan.
Context {PF : Type} `{PageFile PF}.
Variable codes : ErrorCodes.
Variable layout : NodeLayout.

(** [n] successive calls of [readForward], the way a caller walks the
    index: each call starts from the cursor and the output arguments the
    previous one left; the walk stops at the first error.  The result is the
    list of pairs read, the final cursor and the last result code. *)
Fixpoint readForward_n (n : nat) (cursor : IndexCursor) (key : Z) (rid : RecordId)
    (this : BTreeIndex PF)
  : list (Z * RecordId) * IndexCursor * RC :=
  match n with
  | O => ([], cursor, 0)
  | S n' =>
    let '(rc, cursor, out, this) := readForward codes layout cursor key rid this in
    if rc <? 0 then ([], cursor, rc)
    else
      let '(outs, cursor, rc') := readForward_n n' cursor (fst out) (snd out) this in
      (out :: outs, cursor, rc')
  end.

End Scan.

(** An index object that still holds the tree of an earlier session, root 7
    and height 9, about to open the scenario file. *)
Definition reused_index : BTreeIndex MemFile :=
  {| pf := scenario_file; rootPid := 7; treeHeight := 9;
     buffer := zero_buffer MEM_PAGE_SIZE |}.

(** The same object about to open a file whose page 0 is zero-initialized. *)
Definition reused_on_blank : BTreeIndex MemFile :=
  {| pf := blank_file; rootPid := 7; treeHeight := 9;
     buffer := zero_buffer MEM_PAGE_SIZE |}.

(** An open index whose root is a leaf on a page the file does not have. *)
Definition dangling_index : BTreeIndex MemFile :=
  {| pf := pf scenario_index; rootPid := 9; treeHeight := 1;
     buffer := buffer scenario_index |}.

(** * SqlEngine: the load-file parser of [SqlEngine.cc] *)

(** ** C strings and the C library calls the parser makes *)

Definition NUL : ascii := "000"%char.
Definition TAB : ascii := "009"%char.
Definition NEWLINE : ascii := "010"%char.
Definition SQUOTE : ascii := "039"%char.
Definition DQUOTE : ascii := "034"%char.
Definition COMMA : ascii := ","%char.

(** [std::string::c_str()] as the pointer-walking code sees it: the
    characters up to the first NUL. *)
Fixpoint c_str (s : string) : string :=
  match s with
  | EmptyString => EmptyString
  | String c s' => if Ascii.eqb c NUL then EmptyString else String c (c_str s')
  end.

(** [*s] for a [const char *s]: the terminator when nothing is left. *)
Definition peek (s : string) : ascii :=
  match s with
  | EmptyString => NUL
  | String c _ => c
  end.

(** [++s] *)
Definition advance (s : string) : string :=
  match s with
  | EmptyString => EmptyString
  | String _ s' => s'
  end.

(** [isspace] in the C locale. *)
Definition isspace (c : ascii) : bool :=
  Ascii.eqb c " " || ((9 <=? nat_of_ascii c)%nat && (nat_of_ascii c <=? 13)%nat).

Definition isdigit (c : ascii) : bool :=
  (48 <=? nat_of_ascii c)%nat && (nat_of_ascii c <=? 57)%nat.

Definition digit_value (c : ascii) : Z := Z.of_nat (nat_of_ascii c) - 48.

Fixpoint skip_spaces (s : string) : string :=
  match s with
  | EmptyString => EmptyString
  | String c s' => if isspace c then skip_spaces s' else s
  end.

Fixpoint atoi_digits (s : string) (acc : Z) : Z :=
  match s with
  | EmptyString => acc
  | String c s' =>
    if isdigit c then atoi_digits s' (10 * acc + digit_value c) else acc
  end.

(** The C library's [atoi]: leading white space, an optional sign, then
    decimal digits up to the first other character; no digits give 0.  C
    leaves a value that does not fit an [int] undefined; here it wraps. *)
Definition atoi (s : string) : Z :=
  match skip_spaces s with
  | String "-" s' => int32 (- atoi_digits s' 0)
  | String "+" s' => int32 (atoi_digits s' 0)
  | s' => int32 (atoi_digits s' 0)
  end.

(** [strchr(s, c)]: the rest of the string from the first [c] on. *)
Fixpoint strchr (s : string) (c : ascii) : option string :=
  match s with
  | EmptyString => None
  | String a s' => if Ascii.eqb a c then Some s else strchr s' c
  end.

(** [std::string::find(c, 0)]; [None] stands for [npos]. *)
Fixpoint string_find (s : string) (c : ascii) : option nat :=
  match s with
  | EmptyString => None
  | String a s' =>
    if Ascii.eqb a c then Some O
    else match string_find s' c with
         | Some n => Some (S n)
         | None => None
         end
  end.

(** [std::string::erase(loc)]: drop everything from position [loc] on. *)
Definition string_erase (s : string) (loc : nat) : string := substring 0 loc s.

Definition is_blank (c : ascii) : bool := Ascii.eqb c " " || Ascii.eqb c TAB.

(** [while (c == ' ' || c == '\t') { c = *++s; }] *)
Fixpoint skip_blanks (s : string) : string :=
  match s with
  | EmptyString => EmptyString
  | String c s' => if is_blank c then skip_blanks s' else s
  end.

Section ParseLoadLine.
Variable RC_INVALID_FILE_FORMAT : RC.

(** [SqlEngine::parseLoadLine]; [key] and [value] are what the output
    arguments hold at the call.  The result is the code returned and the
    output arguments after the call. *)
Definition parseLoadLine (line : string) (key : Z) (value : string)
  : RC * (Z * string) :=
  let s := c_str line in
  let s := skip_blanks s in
  let key := atoi s in
  match strchr s COMMA with
  | None => (RC_INVALID_FILE_FORMAT, (key, value))
  | Some s =>
    let s := skip_blanks (advance s) in
    let c := peek s in
    if Ascii.eqb c NUL then (0, (key, EmptyString))
    else
      let '(s, c) :=
        if Ascii.eqb c SQUOTE || Ascii.eqb c DQUOTE
        then (advance s, c)
        else (s, NEWLINE) in
      let value := s in
      match string_find value c with
      | Some loc => (0, (key, string_erase value loc))
      | None => (0, (key, value))
      end
  end.

End ParseLoadLine.

(** Every character of the string satisfies [p]. *)
Fixpoint all_chars (p : ascii -> bool) (s : string) : bool :=
  match s with
  | EmptyString => true
  | String c s' => p c && all_chars p s'
  end.

(** [%d] of [printf]. *)
Definition print_int (k : Z) : string := DecimalString.NilEmpty.string_of_int (Z.to_int k).

Definition chars (s : string) : list ascii := list_ascii_of_string s.

(** The characters [%d] can print. *)
Definition key_char (c : ascii) : bool := isdigit c || Ascii.eqb c "-".

(** * SqlEngine: [select] and [load] *)

(** ** The record file

    The table file is an external collaborator, like the page file; [select]
    and [load] see the calls below.  [rf_read] is a [const] method.  The
    order on record ids and the step to the next record id belong to the
    record file's header. *)

Class RecordFile (RF : Type) : Type := {
  rf_open : RF -> string -> ascii -> RC * RF;
  rf_close : RF -> RC * RF;
  rf_endRid : RF -> RecordId;
  rf_read : RF -> RecordId -> RC * (Z * string);
  rf_append : RF -> Z -> string -> RC * RecordId * RF;
  rid_lt : RecordId -> RecordId -> bool;
  rid_incr : RecordId -> RecordId
}.

(** ** Selection conditions *)

Inductive Comparator : Type := EQ | NE | LT | GT | LE | GE.

Record SelCond : Type := {
  sc_attr : Z;
  sc_comp : Comparator;
  sc_value : string
}.

(** The C library's [strcmp] on two C strings: the difference of the first
    two characters that differ, taken as unsigned bytes, the terminator
    counting as 0.  C fixes the sign of the result only, and the sign is all
    that [select] looks at. *)
Fixpoint strcmp (a b : string) : Z :=
  match a, b with
  | EmptyString, EmptyString => 0
  | EmptyString, String y _ => - Z.of_nat (nat_of_ascii y)
  | String x _, EmptyString => Z.of_nat (nat_of_ascii x)
  | String x a', String y b' =>
    if Ascii.eqb x y then strcmp a' b'
    else Z.of_nat (nat_of_ascii x) - Z.of_nat (nat_of_ascii y)
  end.

Definition newline : string := String NEWLINE EmptyString.

(** The [switch (attr)] that prints a tuple; each element of the result is
    the text of one [fprintf(stdout, ...)]. *)
Definition print_tuple (attr : Z) (key : Z) (value : string) : list string :=
  if attr =? 1 then [(print_int key ++ newline)%string]
  else if attr =? 2 then [(c_str value ++ newline)%string]
  else if attr =? 3 then
    [(print_int key ++ " '" ++ c_str value ++ "'" ++ newline)%string]
  else [].

(** The [for] loop over the conditions of [select].  [diff] is declared
    outside the loops and keeps its last value when [attr] is neither 1 nor
    2.  The result tells whether every condition is met ([false] stands for
    [goto next_tuple]) and gives the value [diff] is left with. *)
Fixpoint check_conds (cond : list SelCond) (key : Z) (value : string) (diff : Z)
  : bool * Z :=
  match cond with
  | [] => (true, diff)
  | c :: cond' =>
    let diff :=
      if sc_attr c =? 1 then int32 (key - atoi (c_str (sc_value c)))
      else if sc_attr c =? 2 then strcmp (c_str value) (c_str (sc_value c))
      else diff in
    let skip :=
      match sc_comp c with
      | EQ => negb (diff =? 0)
      | NE => diff =? 0
      | GT => diff <=? 0
      | LT => diff >=? 0
      | GE => diff <? 0
      | LE => diff >? 0
      end in
    if skip then (false, diff) else check_conds cond' key value diff
  end.

Section SqlEngine.
Context {RF : Type} `{RecordFile RF}.
Context {PF : Type} `{PageFile PF}.
Variable RC_INVALID_FILE_FORMAT : RC.

(** The [while (rid < rf.endRid())] loop of [select].  The result is
    [inl rc] when a read fails ([goto exit_select]), [inr count] when the
    scan reaches the end, paired with what was printed; [None] when [fuel]
    runs out. *)
Fixpoint select_loop (fuel : nat) (attr : Z) (cond : list SelCond) (rf : RF)
    (rid : RecordId) (count diff : Z) (out : list string)
  : option ((RC + Z) * list string) :=
  match fuel with
  | O => None
  | S fuel' =>
    if rid_lt rid (rf_endRid rf) then
      let '(rc, (key, value)) := rf_read rf rid in
      if rc <? 0 then Some (inl rc, out)
      else
        let '(met, diff) := check_conds cond key value diff in
        if met then
          select_loop fuel' attr cond rf (rid_incr rid) (int32 (count + 1)) diff
                      (out ++ print_tuple attr key value)
        else select_loop fuel' attr cond rf (rid_incr rid) count diff out
    else Some (inr count, out)
  end.

(** [SqlEngine::select].  [rf] is the local [RecordFile] together with the
    files it can open, [diff] the value the uninitialised local [diff]
    starts with, [fuel] a bound on the number of loop tests.  The result is
    the code returned, the text printed on [stdout] and the record file the
    call leaves. *)
Definition select (fuel : nat) (attr : Z) (table : string) (cond : list SelCond)
    (diff : Z) (rf : RF)
  : option (RC * list string * RF) :=
  let '(rc, rf) := rf_open rf (table ++ ".tbl")%string "r" in
  if rc <? 0 then Some (rc, [], rf)
  else
    let rid := {| rid_pid := 0; rid_sid := 0 |} in
    let count := 0 in
    match select_loop fuel attr cond rf rid count diff [] with
    | None => None
    | Some (inl rc, out) =>
      let '(_, rf) := rf_close rf in
      Some (rc, out, rf)
    | Some (inr count, out) =>
      let out := if attr =? 4 then out ++ [(print_int count ++ newline)%string]
                 else out in
      let rc := 0 in
      let '(_, rf) := rf_close rf in
      Some (rc, out, rf)
    end.

(** The [while (getline(infile, line))] loop of [load] when an index is
    asked for.  [inl] is an early [return rc] with the files as they are at
    that point, [inr] the end of the file. *)
Fixpoint load_lines_index (lines : list string) (rf : RF) (bTree : BTreeIndex PF)
    (key : Z) (value : string)
  : (RC * RF * BTreeIndex PF) + (RF * BTreeIndex PF) :=
  match lines with
  | [] => inr (rf, bTree)
  | line :: lines' =>
    let '(rc, (key, value)) := parseLoadLine RC_INVALID_FILE_FORMAT line key value in
    if rc <? 0 then inl (rc, rf, bTree)
    else
      let '(rc, rid, rf) := rf_append rf key value in
      if rc <? 0 then inl (rc, rf, bTree)
      else
        let '(rc, bTree) := insert key rid bTree in
        if rc <? 0 then inl (rc, rf, bTree)
        else load_lines_index lines' rf bTree key value
  end.

(** The same loop when no index is asked for. *)
Fixpoint load_lines_plain (lines : list string) (rf : RF) (key : Z) (value : string)
  : (RC * RF) + RF :=
  match lines with
  | [] => inr rf
  | line :: lines' =>
    let '(rc, (key, value)) := parseLoadLine RC_INVALID_FILE_FORMAT line key value in
    if rc <? 0 then inl (rc, rf)
    else
      let '(rc, rid, rf) := rf_append rf key value in
      if rc <? 0 then inl (rc, rf)
      else load_lines_plain lines' rf key value
  end.

(** [SqlEngine::load].  [lines] is what [getline] yields from the load
    file, [rf] and [bTree] the local record file and index with the files
    they can open, [key] the value the uninitialised local [key] starts
    with.  The result is the code returned and the two objects as the call
    leaves them. *)
Definition load (table : string) (lines : list string) (index : bool)
    (key : Z) (rf : RF) (bTree : BTreeIndex PF)
  : RC * RF * BTreeIndex PF :=
  let value := EmptyString in
  let '(rc, rf) := rf_open rf (table ++ ".tbl")%string "w" in
  if rc <? 0 then (rc, rf, bTree)
  else if index then
    let '(rc, bTree) := open (table ++ ".idx")%string "w" bTree in
    if rc <? 0 then (rc, rf, bTree)
    else
      match load_lines_index lines rf bTree key value with
      | inl early => early
      | inr (rf, bTree) =>
        let '(_, bTree) := close bTree in
        let '(_, rf) := rf_close rf in
        (0, rf, bTree)
      end
  else
    match load_lines_plain lines rf key value with
    | inl (rc, rf) => (rc, rf, bTree)
    | inr rf =>
      let '(_, rf) := rf_close rf in
      (0, rf, bTree)
    end.

(** The record ids the scan of [select] visits, in order. *)
Fixpoint scan_rids (fuel : nat) (rf : RF) (rid : RecordId) : option (list RecordId) :=
  match fuel with
  | O => None
  | S fuel' =>
    if rid_lt rid (rf_endRid rf)
    then option_map (cons rid) (scan_rids fuel' rf (rid_incr rid))
    else Some []
  end.

(** Appending the tuples one after the other; [None] when an append
    fails. *)
Fixpoint append_all (tuples : list (Z * string)) (rf : RF) : option RF :=
  match tuples with
  | [] => Some rf
  | (k, v) :: tuples' =>
    let '(rc, _, rf) := rf_append rf k v in
    if rc <? 0 then None else append_all tuples' rf
  end.

End SqlEngine.

(** What a comparison operator asks of the outcome of a comparison. *)
Definition comparator_holds (op : Comparator) (o : comparison) : bool :=
  match op, o with
  | EQ, Eq => true
  | NE, (Lt | Gt) => true
  | LT, Lt => true
  | GT, Gt => true
  | LE, (Lt | Eq) => true
  | GE, (Gt | Eq) => true
  | _, _ => false
  end.

(** A condition as a test on a tuple, for conditions on the key (1) or on
    the value (2). *)
Definition cond_met (c : SelCond) (key : Z) (value : string) : bool :=
  if sc_attr c =? 1
  then comparator_holds (sc_comp c) (key ?= atoi (c_str (sc_value c)))
  else comparator_holds (sc_comp c)
         (String.compare (c_str value) (c_str (sc_value c))).

(** A line of a load file: the key, a comma and the value between double
    quotes. *)
Definition load_line (tuple : Z * string) : string :=
  (print_int (fst tuple) ++ String COMMA (String DQUOTE (snd tuple ++ String DQUOTE EmptyString)))%string.

(** A condition [select] evaluates as intended on a tuple with this key: it
    is on the value, or it is on the key and the subtraction that compares
    the key with the constant stays within [int]. *)
Definition cond_in_range (key : Z) (c : SelCond) : Prop :=
  (sc_attr c = 1 /\ in_int (key - atoi (c_str (sc_value c)))) \/ sc_attr c = 2.

Definition no_NUL (s : string) : bool :=
  all_chars (fun c => negb (Ascii.eqb c NUL)) s.

(** The tuples that meet every condition, and what [select] prints for a
    list of tuples. *)
Definition matching (cond : list SelCond) (t : Z * string) : bool :=
  forallb (fun c => cond_met c (fst t) (snd t)) cond.

Definition print_rows (attr : Z) (tuples : list (Z * string)) : list string :=
  flat_map (fun t => print_tuple attr (fst t) (snd t)) tuples.

(** The tuple a record id names in a record file. *)
Definition tuple_at {RF : Type} `{RecordFile RF} (rf : RF) (r : RecordId)
  : Z * string :=
  snd (rf_read rf r).

(** A tuple [load_line] can carry: the key fits an [int], the value holds
    neither a double quote nor NUL. *)
Definition loadable (t : Z * string) : Prop :=
  in_int (fst t)
  /\ all_chars (fun c => negb (Ascii.eqb c DQUOTE)) (snd t) = true
  /\ no_NUL (snd t) = true.

(** ** An in-memory record file

    A table to run [select] and [load] on: the list of its tuples, an open
    flag, the access mode and the positions of the tuples that can no
    longer be read.  A record id is a page id and a slot, two slots to a
    page. *)

Record MemRecords : Type := {
  mr_tuples : list (Z * string);
  mr_opened : bool;
  mr_writable : bool;
  mr_damaged : list Z
}.

(** Modelled from the spec: a record locator is a page id and a slot within
    that page. *)
Definition mem_rid (i : nat) : RecordId :=
  {| rid_pid := Z.of_nat i / 2; rid_sid := Z.of_nat i mod 2 |}.

(** Modelled from the spec: the order of the record ids, by page, then by
    slot. *)
Definition mem_rid_lt (r1 r2 : RecordId) : bool :=
  (rid_pid r1 <? rid_pid r2)
  || ((rid_pid r1 =? rid_pid r2) && (rid_sid r1 <? rid_sid r2)).

(** Modelled from the spec: the next record id, on the next page after the
    last slot. *)
Definition mem_rid_incr (r : RecordId) : RecordId :=
  if rid_sid r + 1 >=? 2
  then {| rid_pid := rid_pid r + 1; rid_sid := 0 |}
  else {| rid_pid := rid_pid r; rid_sid := rid_sid r + 1 |}.

(** Modelled from the spec: opening a table for reading (['r']) or for
    writing (['w']). *)
Definition mr_open (f : MemRecords) (name : string) (mode : ascii)
  : RC * MemRecords :=
  if Ascii.eqb mode "r" then
    (0, {| mr_tuples := mr_tuples f; mr_opened := true; mr_writable := false;
           mr_damaged := mr_damaged f |})
  else if Ascii.eqb mode "w" then
    (0, {| mr_tuples := mr_tuples f; mr_opened := true; mr_writable := true;
           mr_damaged := mr_damaged f |})
  else (IOError, f).

(** Modelled from the spec: closing the table. *)
Definition mr_close (f : MemRecords) : RC * MemRecords :=
  if mr_opened f then
    (0, {| mr_tuples := mr_tuples f; mr_opened := false; mr_writable := false;
           mr_damaged := mr_damaged f |})
  else (IOError, f).

(** Modelled from the spec: the record id one past the last tuple. *)
Definition mr_endRid (f : MemRecords) : RecordId :=
  mem_rid (length (mr_tuples f)).

(** Modelled from the spec: reading the tuple a record id names. *)
Definition mr_read (f : MemRecords) (r : RecordId) : RC * (Z * string) :=
  if mr_opened f && (0 <=? rid_pid r) && (0 <=? rid_sid r) && (rid_sid r <? 2)
     && mem_rid_lt r (mr_endRid f)
     && negb (existsb (Z.eqb (rid_pid r * 2 + rid_sid r)) (mr_damaged f))
  then (0, nth (Z.to_nat (rid_pid r * 2 + rid_sid r)) (mr_tuples f) (0, EmptyString))
  else (IOError, (0, EmptyString)).

(** Modelled from the spec: appending a tuple at the end of the table. *)
Definition mr_append (f : MemRecords) (key : Z) (value : string)
  : RC * RecordId * MemRecords :=
  if mr_opened f && mr_writable f
  then (0, mr_endRid f,
        {| mr_tuples := mr_tuples f ++ [(key, value)];
           mr_opened := mr_opened f; mr_writable := mr_writable f;
           mr_damaged := mr_damaged f |})
  else (IOError, mr_endRid f, f).

#[export] Instance MemRecordFile : RecordFile MemRecords := {
  rf_open := mr_open;
  rf_close := mr_close;
  rf_endRid := mr_endRid;
  rf_read := mr_read;
  rf_append := mr_append;
  rid_lt := mem_rid_lt;
  rid_incr := mem_rid_incr
}.

Definition MEM_INVALID_FILE_FORMAT : RC := -1009.

(** The table of three movies the runs below use, and the same table
    before it is loaded. *)
Definition movie_tuples : list (Z * string) :=
  [ (272, "Baby Take a Bow"%string);
    (2342, "Last Ride, The"%string);
    (2965, "Name of the Game"%string) ].

Definition movie_table : MemRecords :=
  {| mr_tuples := movie_tuples; mr_opened := false; mr_writable := false;
     mr_damaged := [] |}.

Definition empty_table : MemRecords :=
  {| mr_tuples := []; mr_opened := false; mr_writable := false;
     mr_damaged := [] |}.

(** The movie table with its last tuple unreadable. *)
Definition damaged_table : MemRecords :=
  {| mr_tuples := movie_tuples; mr_opened := false; mr_writable := false;
     mr_damaged := [2] |}.

Definition key_above_1000 : SelCond :=
  {| sc_attr := 1; sc_comp := GT; sc_value := "1000" |}.

(** The movie table while it is open for writing. *)
Definition movie_table_written : MemRecords :=
  {| mr_tuples := movie_tuples; mr_opened := true; mr_writable := true;
     mr_damaged := [] |}.

Definition rid_at (p s : Z) : RecordId := {| rid_pid := p; rid_sid := s |}.

(** * Properties *)

(** ** Integers and buffers *)

Lemma int32_in_range (x : Z) : in_int x -> int32 x = x.
Proof.
  unfold in_int, INT_MIN, INT_MAX, int32. intros Hx.
  rewrite Z.mod_small; lia.
Qed.

Lemma int32_range (x : Z) : in_int (int32 x).
Proof.
  unfold in_int, INT_MIN, INT_MAX, int32.
  pose proof (Z.mod_pos_bound (x + 2 ^ 31) (2 ^ 32)). lia.
Qed.

Lemma int32_congr (x : Z) : (int32 x) mod 2 ^ 32 = x mod 2 ^ 32.
Proof.
  unfold int32.
  replace ((x + 2 ^ 31) mod 2 ^ 32 - 2 ^ 31)
    with (x + (- ((x + 2 ^ 31) / 2 ^ 32)) * 2 ^ 32).
  - apply Z.mod_add. lia.
  - pose proof (Z.div_mod (x + 2 ^ 31) (2 ^ 32)). lia.
Qed.

Lemma int_bytes_length (x : Z) : length (int_bytes x) = 4%nat.
Proof. reflexivity. Qed.

(** Copying at offset 0 replaces the first bytes and keeps the rest. *)
Lemma memcpy_to_0 (buf : Buffer) (src : list Z) :
  memcpy_to buf 0 src = src ++ skipn (length src) buf.
Proof. reflexivity. Qed.

(** Two copies of an [int] to the same offset: the second one wins. *)
Lemma memcpy_to_0_twice (buf : Buffer) (x y : Z) :
  memcpy_to (memcpy_to buf 0 (int_bytes x)) 0 (int_bytes y)
  = int_bytes y ++ skipn 4 buf.
Proof.
  rewrite !memcpy_to_0, !int_bytes_length. reflexivity.
Qed.

(** An [int] survives the trip through its four bytes. *)
Lemma bytes_int_int_bytes (x : Z) : in_int x -> bytes_int (int_bytes x) = x.
Proof.
  unfold in_int, INT_MIN, INT_MAX, bytes_int, int_bytes. intros Hx.
  cbn [nth].
  change 255 with (Z.ones 8).
  rewrite !Z.land_ones, !Z.shiftr_div_pow2, !Z.shiftl_mul_pow2 by lia.
  unfold int32.
  change (2 ^ 8) with 256. change (2 ^ 16) with 65536.
  change (2 ^ 24) with 16777216. change (2 ^ 31) with 2147483648.
  change (2 ^ 32) with 4294967296.
  Z.div_mod_to_equations; lia.
Qed.

(** ** The descent loop of [locate] *)

Section Descent.
Context {PF : Type} `{PageFile PF}.
Variable layout : NodeLayout.
Variables (f : PF) (searchKey height : Z).

(** With [curHeight] below [height], the loop is the descent through the
    [height - curHeight] levels in between. *)
Lemma locate_loop_descend (levels : nat) :
  forall (fuel : nat) (node : BTNonLeafNode) (curHeight : Z) (child : PageId),
    in_int height -> in_int curHeight ->
    curHeight + Z.of_nat levels = height ->
    (levels < fuel)%nat ->
    locate_loop layout fuel f searchKey height node curHeight child
    = Some (descend_levels layout f searchKey levels node child).
Proof.
  induction levels as [|levels IH]; intros fuel node curHeight child Hh Hc Heq Hfuel.
  - destruct fuel as [|fuel]; [lia|]. simpl.
    replace (curHeight =? height) with true by (symmetry; apply Z.eqb_eq; lia).
    reflexivity.
  - destruct fuel as [|fuel]; [lia|]. simpl.
    replace (curHeight =? height) with false by (symmetry; apply Z.eqb_neq; lia).
    simpl.
    destruct (nonleaf_read node child f) as [rc node'].
    destruct (rc <? 0); [reflexivity|].
    assert (Hnext : in_int (curHeight + 1)).
    { unfold in_int, INT_MIN, INT_MAX in *. lia. }
    rewrite (int32_in_range _ Hnext).
    apply IH; try assumption; lia.
Qed.

(** Whatever the heights, the loop stops within the distance from
    [curHeight] up to [height], counted with wrap-around. *)
Lemma locate_loop_total (n : nat) :
  forall (fuel : nat) (node : BTNonLeafNode) (curHeight : Z) (child : PageId),
    in_int height -> in_int curHeight ->
    (height - curHeight) mod 2 ^ 32 = Z.of_nat n ->
    (n < fuel)%nat ->
    exists r, locate_loop layout fuel f searchKey height node curHeight child
              = Some r.
Proof.
  induction n as [|n IH]; intros fuel node curHeight child Hh Hc Hd Hfuel.
  - destruct fuel as [|fuel]; [lia|]. simpl.
    assert (curHeight = height) as ->.
    { unfold in_int, INT_MIN, INT_MAX in *.
      change (Z.of_nat 0) with 0 in Hd.
      apply Z.mod_divide in Hd; [|lia].
      destruct Hd as [q Hq]. lia. }
    rewrite Z.eqb_refl. simpl. eauto.
  - destruct fuel as [|fuel]; [lia|]. simpl.
    destruct (curHeight =? height) eqn:E; simpl; [eauto|].
    destruct (nonleaf_read node child f) as [rc node'].
    destruct (rc <? 0); [eauto|].
    apply IH; try assumption; try lia.
    + apply int32_range.
    + rewrite <- Zminus_mod_idemp_r, int32_congr, Zminus_mod_idemp_r.
      replace (height - (curHeight + 1)) with (height - curHeight - 1) by lia.
      pose proof (Z.mod_pos_bound (height - curHeight) (2 ^ 32)) as Hb.
      rewrite <- Zminus_mod_idemp_l, Hd. rewrite Hd in Hb.
      rewrite Z.mod_small; lia.
Qed.

End Descent.

(** ** Opening and closing *)

Section OpenClose.
Context {PF : Type} `{PageFile PF}.

(** The buffer [close] hands to the page storage: the four bytes of
    [treeHeight] followed by the old buffer from offset 4 on. *)
Lemma close_buffer (this : BTreeIndex PF) :
  buffer (snd (close this))
  = int_bytes (treeHeight this) ++ skipn 4 (buffer this).
Proof.
  unfold close. rewrite <- memcpy_to_0_twice with (x := rootPid this).
  cbn [set_buffer buffer pf rootPid treeHeight].
  destruct (pf_write _ _ _) as [rc f]. cbn [set_pf pf buffer].
  destruct (rc <? 0); [reflexivity|].
  destruct (pf_close f) as [rc' f']. reflexivity.
Qed.

(** [close] never touches [rootPid] and [treeHeight]. *)
Lemma close_fields (this : BTreeIndex PF) :
  rootPid (snd (close this)) = rootPid this
  /\ treeHeight (snd (close this)) = treeHeight this.
Proof.
  unfold close. cbn [set_buffer buffer pf rootPid treeHeight].
  destruct (pf_write _ _ _) as [rc f]. cbn [set_pf pf buffer].
  destruct (rc <? 0); [split; reflexivity|].
  destruct (pf_close f) as [rc' f']. split; reflexivity.
Qed.

(** What [open] would load as [rootPid] from the buffer [close] writes is
    the height of the tree. *)
Lemma close_root_bytes (this : BTreeIndex PF) :
  in_int (treeHeight this) ->
  memcpy_from (buffer (snd (close this))) 0 = treeHeight this.
Proof.
  intros Hh. rewrite close_buffer. unfold memcpy_from.
  cbn [skipn int_bytes app firstn].
  apply (bytes_int_int_bytes _ Hh).
Qed.

(** C9. On the first [open] of an index file that does not exist yet (the
    storage opens and reports zero pages), the index becomes the empty
    tree, [rootPid = -1] and [treeHeight = 0], the buffer is written to
    page 0 of the storage, whose result code is the one returned, and
    [getRoot] and [getHeight] return -1 and 0 afterwards. *)
Theorem open_nonexistent_file
    (this : BTreeIndex PF) (indexname : string) (mode : ascii)
    (rc0 : RC) (f1 : PF) :
  pf_open (pf this) indexname mode = (rc0, f1) ->
  0 <= rc0 ->
  pf_endPid f1 = 0 ->
  open indexname mode this
  = (fst (pf_write f1 0 (buffer this)),
     {| pf := snd (pf_write f1 0 (buffer this));
        rootPid := -1; treeHeight := 0; buffer := buffer this |})
  /\ getRoot (snd (open indexname mode this)) = -1
  /\ getHeight (snd (open indexname mode this)) = 0.
Proof.
  intros Hopen Hrc Hend.
  assert (Heq : open indexname mode this
                = (fst (pf_write f1 0 (buffer this)),
                   {| pf := snd (pf_write f1 0 (buffer this));
                      rootPid := -1; treeHeight := 0;
                      buffer := buffer this |})).
  { unfold open. rewrite Hopen.
    cbn [set_pf set_rootPid set_treeHeight set_buffer pf buffer rootPid treeHeight].
    replace (rc0 <? 0) with false by (symmetry; apply Z.ltb_ge; lia).
    rewrite Hend. cbn [Z.eqb].
    destruct (pf_write f1 0 (buffer this)) as [rc f2]. cbn [fst snd].
    destruct (rc <? 0); reflexivity. }
  rewrite Heq. repeat split.
Qed.

(** C8. When the storage opens, already has pages and page 0 is read, an
    index holding the empty-tree defaults adopts the loaded values exactly
    when [rootPid > 0] and [treeHeight >= 0]; otherwise it keeps
    [rootPid = -1] and [treeHeight = 0].  In both cases [open] returns the
    result code of the successful read, not an error. *)
Theorem open_validates_metadata
    (this : BTreeIndex PF) (indexname : string) (mode : ascii)
    (rc0 rc : RC) (f1 : PF) (page0 : Buffer) :
  rootPid this = -1 ->
  treeHeight this = 0 ->
  pf_open (pf this) indexname mode = (rc0, f1) ->
  0 <= rc0 ->
  pf_endPid f1 <> 0 ->
  pf_read f1 0 (buffer this) = (rc, page0) ->
  0 <= rc ->
  let loadPid := memcpy_from page0 0 in
  let loadHeight := memcpy_from page0 4 in
  let result := open indexname mode this in
  fst result = rc
  /\ (loadPid > 0 /\ loadHeight >= 0 ->
      getRoot (snd result) = loadPid /\ getHeight (snd result) = loadHeight)
  /\ (loadPid <= 0 \/ loadHeight < 0 ->
      getRoot (snd result) = -1 /\ getHeight (snd result) = 0).
Proof.
  intros Hroot Hheight Hopen Hrc0 Hend Hread Hrc loadPid loadHeight result.
  subst result. unfold open. rewrite Hopen.
  cbn [set_pf set_rootPid set_treeHeight set_buffer pf buffer rootPid treeHeight].
  replace (rc0 <? 0) with false by (symmetry; apply Z.ltb_ge; lia).
  replace (pf_endPid f1 =? 0) with false by (symmetry; apply Z.eqb_neq; assumption).
  rewrite Hread.
  replace (rc <? 0) with false by (symmetry; apply Z.ltb_ge; lia).
  fold loadPid loadHeight.
  destruct (loadPid >? 0) eqn:Ep; destruct (loadHeight >=? 0) eqn:Eh;
    cbn [andb fst snd getRoot getHeight rootPid treeHeight
         set_pf set_rootPid set_treeHeight set_buffer];
    rewrite ?Hroot, ?Hheight;
    (split; [reflexivity|]); split; intros Hc; try (split; reflexivity);
    exfalso;
    pose proof (Zgt_cases loadPid 0) as Hp; rewrite Ep in Hp;
    pose proof (Zge_cases loadHeight 0) as Hh; rewrite Eh in Hh; lia.
Qed.

(** C4 (amended). [close] writes the buffer to page 0.  When that write
    fails, [close] returns the error of the write and makes no call to
    close the page storage: the storage is left as the failed write left
    it.  When the write succeeds, [close] closes the storage and returns
    the result of that call. *)
Theorem close_write_then_close
    (this : BTreeIndex PF) (rcw : RC) (f1 : PF) :
  let page0 := int_bytes (treeHeight this) ++ skipn 4 (buffer this) in
  pf_write (pf this) 0 page0 = (rcw, f1) ->
  (rcw < 0 ->
   close this
   = (rcw, {| pf := f1; rootPid := rootPid this;
              treeHeight := treeHeight this; buffer := page0 |}))
  /\ (0 <= rcw ->
      close this
      = (fst (pf_close f1),
         {| pf := snd (pf_close f1); rootPid := rootPid this;
            treeHeight := treeHeight this; buffer := page0 |})).
Proof.
  intros page0 Hwrite. subst page0.
  rewrite <- memcpy_to_0_twice with (x := rootPid this) in *.
  unfold close.
  cbn [set_buffer set_pf buffer pf rootPid treeHeight].
  rewrite Hwrite. cbn [set_buffer set_pf buffer pf rootPid treeHeight].
  split; intros Hrc.
  - replace (rcw <? 0) with true by (symmetry; apply Z.ltb_lt; lia).
    reflexivity.
  - replace (rcw <? 0) with false by (symmetry; apply Z.ltb_ge; lia).
    destruct (pf_close f1) as [rc f2]. reflexivity.
Qed.

End OpenClose.

(** ** Searching inside a leaf *)

Lemma find_index_some {A : Type} (p : A -> bool) (l : list A) :
  forall (i e : Z),
    find_index p l i = Some e ->
    i <= e < i + Z.of_nat (length l)
    /\ (exists x, nth_error l (Z.to_nat (e - i)) = Some x /\ p x = true)
    /\ (forall (n : nat) (y : A),
           (n < Z.to_nat (e - i))%nat -> nth_error l n = Some y -> p y = false).
Proof.
  induction l as [|x l IH]; intros i e Hfind; simpl in Hfind; [discriminate|].
  destruct (p x) eqn:Ex.
  - injection Hfind as <-. rewrite Z.sub_diag. cbn [length].
    split; [lia|]. split; [exists x; split; [reflexivity|assumption]|].
    intros n y Hn. simpl in Hn. lia.
  - destruct (IH _ _ Hfind) as (Hr & (y & Hy & Hpy) & Hbefore). cbn [length].
    assert (Hs : Z.to_nat (e - i) = S (Z.to_nat (e - (i + 1)))) by lia.
    split; [lia|]. rewrite Hs. split.
    + exists y. split; assumption.
    + intros [|n] z Hn Hz; simpl in Hz.
      * injection Hz as <-. assumption.
      * apply (Hbefore n z); [lia|assumption].
Qed.

Lemma find_index_none {A : Type} (p : A -> bool) (l : list A) :
  forall (i : Z), find_index p l i = None -> forall x, In x l -> p x = false.
Proof.
  induction l as [|y l IH]; intros i Hfind x Hin; simpl in *; [contradiction|].
  destruct (p y) eqn:Ey; [discriminate|].
  destruct Hin as [<-|Hin]; [assumption|]. exact (IH _ Hfind x Hin).
Qed.

(** A key index is a position of the leaf whose entry holds the key. *)
Lemma key_index_found (entries : list (Z * RecordId)) (searchKey e : Z) :
  key_index entries searchKey = Some e ->
  0 <= e < Z.of_nat (length entries)
  /\ exists rid, nth_error entries (Z.to_nat e) = Some (searchKey, rid).
Proof.
  unfold key_index. intros Hfind.
  destruct (find_index_some _ _ _ _ Hfind) as (Hr & ([k rid] & Hx & Hk) & _).
  rewrite Z.sub_0_r in Hx. simpl in Hk. apply Z.eqb_eq in Hk. subst k.
  split; [lia|]. exists rid. assumption.
Qed.

(** No key index: the key is in no entry of the leaf. *)
Lemma key_index_absent (entries : list (Z * RecordId)) (searchKey : Z) :
  key_index entries searchKey = None ->
  forall rid, ~ In (searchKey, rid) entries.
Proof.
  unfold key_index. intros Hfind rid Hin.
  pose proof (find_index_none _ _ _ Hfind _ Hin) as Hk. simpl in Hk.
  rewrite Z.eqb_refl in Hk. discriminate.
Qed.

(** Every entry before the insertion point has a smaller key, and the entry
    at the insertion point, when there is one, has a key that is at least
    the search key. *)
Lemma insertion_point_spec (entries : list (Z * RecordId)) (searchKey : Z) :
  let e := insertion_point entries searchKey in
  0 <= e <= Z.of_nat (length entries)
  /\ (forall (n : nat) (k : Z) (rid : RecordId),
         (n < Z.to_nat e)%nat -> nth_error entries n = Some (k, rid) ->
         k < searchKey)
  /\ (forall (k : Z) (rid : RecordId),
         nth_error entries (Z.to_nat e) = Some (k, rid) -> searchKey <= k).
Proof.
  unfold insertion_point.
  destruct (find_index _ entries 0) as [e|] eqn:Hfind; cbn zeta.
  - destruct (find_index_some _ _ _ _ Hfind) as (Hr & ([k0 r0] & Hx & Hk) & Hbefore).
    rewrite Z.sub_0_r in *. simpl in Hk. apply Z.leb_le in Hk.
    split; [lia|]. split.
    + intros n k rid Hn Hnth. pose proof (Hbefore n _ Hn Hnth) as Hlt.
      simpl in Hlt. apply Z.leb_gt in Hlt. assumption.
    + intros k rid Hnth. rewrite Hx in Hnth. injection Hnth as <- <-. assumption.
  - split; [lia|]. split.
    + intros n k rid _ Hnth. apply nth_error_In in Hnth.
      pose proof (find_index_none _ _ _ Hfind _ Hnth) as Hlt.
      simpl in Hlt. apply Z.leb_gt in Hlt. assumption.
    + intros k rid Hnth. rewrite Nat2Z.id in Hnth.
      assert (Hnone : nth_error entries (length entries) = None)
        by (apply nth_error_None; lia).
      congruence.
Qed.

(** ** [locate] and [readForward] *)

Section Search.
Context {PF : Type} `{PageFile PF}.
Variable codes : ErrorCodes.
Variable layout : NodeLayout.

Lemma locate_fuel_enough (height : Z) :
  1 <= height <= INT_MAX ->
  (Z.to_nat (height - 1) < locate_fuel height)%nat.
Proof.
  unfold locate_fuel, INT_MAX. intros Hh.
  rewrite Z.mod_small; lia.
Qed.

(** [locate] always returns: the loop cannot run out of fuel. *)
Lemma locate_total (searchKey : Z) (cursor : IndexCursor) (this : BTreeIndex PF) :
  in_int (treeHeight this) ->
  exists r, locate codes layout searchKey cursor this = Some r.
Proof.
  intros Hh. unfold locate.
  destruct (locate_loop_total layout (pf this) searchKey (treeHeight this)
              (Z.to_nat ((treeHeight this - 1) mod 2 ^ 32))
              (locate_fuel (treeHeight this)) BTNonLeafNode_new 1 (rootPid this))
    as [r Hr].
  - assumption.
  - unfold in_int, INT_MIN, INT_MAX. lia.
  - pose proof (Z.mod_pos_bound (treeHeight this - 1) (2 ^ 32)). lia.
  - unfold locate_fuel. lia.
  - rewrite Hr. destruct r as [rc|child]; [eauto|].
    destruct (leaf_read BTLeafNode_new child (pf this)) as [rc leaf].
    destruct (rc <? 0); [eauto|].
    destruct (leaf_locate codes layout leaf searchKey) as [rc' e].
    destruct (rc' <? 0); eauto.
Qed.

(** C3. In a tree of height at least 1, [locate] descends from the root
    through exactly [treeHeight - 1] internal levels, choosing the child
    with [locateChildPtr] at each, and searches the leaf it reaches: when
    the key is in the leaf the result is success (0) with the cursor on
    the leaf page and the entry index of the key; when it is absent the
    result is NotFound with the cursor on the leaf page and the insertion
    point. *)
Theorem locate_descends_then_searches
    (this : BTreeIndex PF) (searchKey : Z) (cursor : IndexCursor)
    (leafPid : PageId) (rc : RC) (leaf : BTLeafNode) :
  1 <= treeHeight this <= INT_MAX ->
  descend_levels layout (pf this) searchKey (Z.to_nat (treeHeight this - 1))
                 BTNonLeafNode_new (rootPid this) = inr leafPid ->
  leaf_read BTLeafNode_new leafPid (pf this) = (rc, leaf) ->
  0 <= rc ->
  let entries := leaf_entries (leaf_data layout leaf) in
  (forall e : Z,
      key_index entries searchKey = Some e ->
      locate codes layout searchKey cursor this
      = Some (0, {| pid := leafPid; eid := e |}, this))
  /\ (key_index entries searchKey = None ->
      locate codes layout searchKey cursor this
      = Some (RC_NO_SUCH_RECORD codes,
              {| pid := leafPid; eid := insertion_point entries searchKey |},
              this)).
Proof.
  intros Hh Hdescend Hread Hrc entries.
  assert (Hloop : locate_loop layout (locate_fuel (treeHeight this)) (pf this)
                    searchKey (treeHeight this) BTNonLeafNode_new 1 (rootPid this)
                  = Some (inr leafPid)).
  { rewrite <- Hdescend. apply locate_loop_descend.
    - unfold in_int, INT_MIN, INT_MAX in *. lia.
    - unfold in_int, INT_MIN, INT_MAX. lia.
    - lia.
    - apply locate_fuel_enough. assumption. }
  unfold locate. rewrite Hloop, Hread.
  replace (rc <? 0) with false by (symmetry; apply Z.ltb_ge; lia).
  unfold leaf_locate. fold entries.
  split.
  - intros e He. rewrite He. reflexivity.
  - intros Hnone. rewrite Hnone.
    replace (RC_NO_SUCH_RECORD codes <? 0) with true
      by (symmetry; apply Z.ltb_lt; apply RC_NO_SUCH_RECORD_neg).
    reflexivity.
Qed.

(** When the height is not 1 and the node at [rootPid] cannot be read,
    [locate] returns the error of that read and leaves the cursor as it
    was: this is what happens on the empty tree, whose root is page -1. *)
Lemma locate_root_read_error
    (this : BTreeIndex PF) (searchKey : Z) (cursor : IndexCursor)
    (rc : RC) (node : BTNonLeafNode) :
  treeHeight this <> 1 ->
  nonleaf_read BTNonLeafNode_new (rootPid this) (pf this) = (rc, node) ->
  rc < 0 ->
  locate codes layout searchKey cursor this = Some (rc, cursor, this).
Proof.
  intros Hh Hread Hrc. unfold locate, locate_fuel. cbn [locate_loop].
  replace (1 =? treeHeight this) with false by (symmetry; apply Z.eqb_neq; lia).
  cbn [negb]. rewrite Hread.
  replace (rc <? 0) with true by (symmetry; apply Z.ltb_lt; lia).
  reflexivity.
Qed.

(** A failed read of the leaf is what [readForward] returns, whatever the
    page id of the cursor. *)
Lemma readForward_read_error
    (this : BTreeIndex PF) (cursor : IndexCursor) (key : Z) (rid : RecordId)
    (rc : RC) (leaf : BTLeafNode) :
  leaf_read BTLeafNode_new (pid cursor) (pf this) = (rc, leaf) ->
  rc < 0 ->
  readForward codes layout cursor key rid this = (rc, cursor, (key, rid), this).
Proof.
  intros Hread Hrc. unfold readForward. rewrite Hread.
  replace (rc <? 0) with true by (symmetry; apply Z.ltb_lt; lia).
  reflexivity.
Qed.

(** After a successful read, a failed entry lookup is what [readForward]
    returns: InvalidIndex, with the output arguments and the cursor as
    they were. *)
Lemma readForward_entry_error
    (this : BTreeIndex PF) (cursor : IndexCursor) (key : Z) (rid : RecordId)
    (rc : RC) (leaf : BTLeafNode) :
  leaf_read BTLeafNode_new (pid cursor) (pf this) = (rc, leaf) ->
  0 <= rc ->
  (eid cursor < 0 \/ leaf_getKeyCount layout leaf <= eid cursor) ->
  readForward codes layout cursor key rid this
  = (RC_INVALID_INDEX codes, cursor, (key, rid), this).
Proof.
  intros Hread Hrc Hout. unfold readForward, leaf_readEntry. rewrite Hread.
  replace (rc <? 0) with false by (symmetry; apply Z.ltb_ge; lia).
  replace ((eid cursor <? 0) || (leaf_getKeyCount layout leaf <=? eid cursor))
    with true.
  - replace (RC_INVALID_INDEX codes <? 0) with true
      by (symmetry; apply Z.ltb_lt; apply RC_INVALID_INDEX_neg).
    reflexivity.
  - symmetry. apply orb_true_iff.
    destruct Hout; [left; apply Z.ltb_lt|right; apply Z.leb_le]; assumption.
Qed.

(** C7. When [readForward] succeeds it returns the (key, locator) pair
    stored at the cursor position of the leaf on page [cursor.pid], and
    the cursor moves on: to the next entry index when more entries remain
    in the leaf, otherwise to entry 0 of the page the leaf's next-node
    pointer names. *)
Theorem readForward_success
    (this this' : BTreeIndex PF) (cursor cursor' : IndexCursor)
    (key key' : Z) (rid rid' : RecordId) (rc : RC) :
  readForward codes layout cursor key rid this = (rc, cursor', (key', rid'), this') ->
  0 <= rc ->
  eid cursor < INT_MAX ->
  let leaf := snd (leaf_read BTLeafNode_new (pid cursor) (pf this)) in
  let entries := leaf_entries (leaf_data layout leaf) in
  nth_error entries (Z.to_nat (eid cursor)) = Some (key', rid')
  /\ 0 <= eid cursor < Z.of_nat (length entries)
  /\ cursor' = (if eid cursor + 1 <? leaf_getKeyCount layout leaf
                then {| pid := pid cursor; eid := eid cursor + 1 |}
                else {| pid := leaf_getNextNodePtr layout leaf; eid := 0 |}).
Proof.
  intros Hrun Hrc Heid leaf entries. subst entries leaf.
  unfold readForward in Hrun.
  destruct (leaf_read BTLeafNode_new (pid cursor) (pf this)) as [rc1 leaf].
  cbn [snd].
  destruct (rc1 <? 0) eqn:E1.
  { injection Hrun as <- _ _ _ _. apply Z.ltb_lt in E1. lia. }
  unfold leaf_readEntry in Hrun.
  destruct ((eid cursor <? 0) || (leaf_getKeyCount layout leaf <=? eid cursor)) eqn:Eb.
  { pose proof (RC_INVALID_INDEX_neg codes) as Hneg.
    replace (RC_INVALID_INDEX codes <? 0) with true in Hrun
      by (symmetry; apply Z.ltb_lt; assumption).
    injection Hrun as <- _ _ _ _. lia. }
  cbn [Z.ltb Z.compare] in Hrun.
  apply orb_false_iff in Eb. destruct Eb as [Elo Ehi].
  apply Z.ltb_ge in Elo. apply Z.leb_gt in Ehi.
  unfold leaf_getKeyCount in Ehi.
  destruct (pid cursor <=? 0).
  { pose proof (RC_INVALID_CURSOR_neg codes) as Hneg.
    injection Hrun as <- _ _ _. lia. }
  assert (Hin : in_int (eid cursor + 1))
    by (unfold in_int, INT_MIN, INT_MAX in *; lia).
  rewrite (int32_in_range _ Hin) in Hrun.
  assert (Hnth : nth_error (leaf_entries (leaf_data layout leaf))
                           (Z.to_nat (eid cursor))
                 = Some (nth (Z.to_nat (eid cursor))
                             (leaf_entries (leaf_data layout leaf)) (key, rid))).
  { apply nth_error_nth'. lia. }
  destruct (eid cursor + 1 <? leaf_getKeyCount layout leaf);
    injection Hrun as _ <- Hout _; rewrite Hnth, Hout;
    (split; [reflexivity|split; [lia|reflexivity]]).
Qed.

(** C10. [locate] and [readForward] return with the index as it was: in
    particular [getRoot] and [getHeight] give the same values before and
    after the call, whether the call succeeds or fails. *)
Theorem search_preserves_root_and_height
    (this : BTreeIndex PF) (searchKey : Z) (cursor : IndexCursor)
    (key : Z) (rid : RecordId) :
  in_int (treeHeight this) ->
  (exists (rc : RC) (cursor' : IndexCursor) (this' : BTreeIndex PF),
      locate codes layout searchKey cursor this = Some (rc, cursor', this')
      /\ getRoot this' = getRoot this
      /\ getHeight this' = getHeight this)
  /\ getRoot (snd (readForward codes layout cursor key rid this)) = getRoot this
  /\ getHeight (snd (readForward codes layout cursor key rid this)) = getHeight this.
Proof.
  intros Hh. split.
  - destruct (locate_total searchKey cursor this Hh) as [[[rc cursor'] this'] Hr].
    exists rc, cursor', this'. split; [assumption|].
    unfold locate in Hr.
    destruct (locate_loop _ _ _ _ _ _ _ _) as [[rc0|child]|]; [| |discriminate].
    + injection Hr as _ _ <-. split; reflexivity.
    + destruct (leaf_read BTLeafNode_new child (pf this)) as [rc1 leaf].
      destruct (rc1 <? 0); [injection Hr as _ _ <-; split; reflexivity|].
      destruct (leaf_locate codes layout leaf searchKey) as [rc2 e].
      destruct (rc2 <? 0); injection Hr as _ _ <-; split; reflexivity.
  - unfold readForward.
    destruct (leaf_read BTLeafNode_new (pid cursor) (pf this)) as [rc1 leaf].
    destruct (rc1 <? 0); [split; reflexivity|].
    destruct (leaf_readEntry codes layout leaf (eid cursor) (key, rid)) as [rc2 out].
    destruct (rc2 <? 0); [split; reflexivity|].
    destruct (pid cursor <=? 0); [split; reflexivity|].
    destruct (int32 (eid cursor + 1) <? leaf_getKeyCount layout leaf);
      split; reflexivity.
Qed.

End Search.

(** ** Runs on the in-memory page file *)

Lemma open_nonexistent_file_witness :
  getRoot (snd (open "movie.idx" "w" (@BTreeIndex_new MemFile _))) = -1
  /\ getHeight (snd (open "movie.idx" "w" (@BTreeIndex_new MemFile _))) = 0.
Proof.
  refine (proj2 (open_nonexistent_file BTreeIndex_new "movie.idx" "w" 0
                   (snd (mem_open mem_new "movie.idx" "w")) _ _ _)).
  - reflexivity.
  - lia.
  - reflexivity.
Defined.

(** Page 0 of the scenario file holds root 3 and height 2, which [open]
    adopts; a zero-initialized page 0 leaves the empty-tree defaults. *)
Lemma open_validates_metadata_witness :
  (fst (open "movie.idx" "r" (set_pf BTreeIndex_new blank_file)) = 0
   /\ getRoot blank_index = -1 /\ getHeight blank_index = 0)
  /\ getRoot scenario_index = 3 /\ getHeight scenario_index = 2.
Proof.
  split.
  - pose proof (open_validates_metadata
                  (set_pf BTreeIndex_new blank_file) "movie.idx" "r" 0 0
                  (snd (mem_open blank_file "movie.idx" "r"))
                  (zero_buffer MEM_PAGE_SIZE)) as W.
    destruct W as (Hrc & _ & Hkeep).
    + reflexivity.
    + reflexivity.
    + reflexivity.
    + lia.
    + vm_compute. discriminate.
    + reflexivity.
    + lia.
    + split; [exact Hrc|]. apply Hkeep. left. vm_compute. discriminate.
  - refine (proj1 (proj2 (open_validates_metadata
                     {| pf := scenario_file; rootPid := -1; treeHeight := 0;
                        buffer := zero_buffer MEM_PAGE_SIZE |}
                     "movie.idx" "w" 0 0
                     (snd (mem_open scenario_file "movie.idx" "w"))
                     (page_of_ints [3; 2]) _ _ _ _ _ _ _)) _).
    + reflexivity.
    + reflexivity.
    + reflexivity.
    + lia.
    + vm_compute. discriminate.
    + reflexivity.
    + lia.
    + vm_compute. split; [reflexivity|discriminate].
Defined.

Lemma close_write_then_close_witness :
  close readonly_index
  = (IOError,
     {| pf := snd (mem_write (pf readonly_index) 0
                     (int_bytes (treeHeight readonly_index)
                      ++ skipn 4 (buffer readonly_index)));
        rootPid := rootPid readonly_index;
        treeHeight := treeHeight readonly_index;
        buffer := int_bytes (treeHeight readonly_index)
                  ++ skipn 4 (buffer readonly_index) |}).
Proof.
  refine (proj1 (close_write_then_close readonly_index IOError
                   (snd (mem_write (pf readonly_index) 0
                           (int_bytes (treeHeight readonly_index)
                            ++ skipn 4 (buffer readonly_index)))) _) _).
  - vm_compute. reflexivity.
  - unfold IOError. lia.
Defined.

(** C4 (counterexample). On a file opened for reading the write of page 0
    fails; [close] then returns the error without any call to close the
    storage, although the claim has it closed all the same. *)
Lemma close_write_failure_leaves_storage_open :
  ~ (forall this : BTreeIndex MemFile,
        fst (pf_write (pf this) 0
               (int_bytes (treeHeight this) ++ skipn 4 (buffer this))) < 0 ->
        fst (close this) < 0
        /\ storage_close_attempted (pf this) (pf (snd (close this)))).
Proof.
  intros Hclaim.
  destruct (Hclaim readonly_index) as [_ (calls & Hcalls & Hin)].
  - vm_compute. reflexivity.
  - change (mf_calls (pf (snd (close readonly_index))))
      with ([CallWrite 0] ++ mf_calls (pf readonly_index)) in Hcalls.
    apply app_inv_tail in Hcalls. subst calls.
    destruct Hin as [Hin|[]]. discriminate.
Qed.

(** C1 (the defect at work). The scenario index holds root 3 and height 2.
    [close] succeeds and leaves the bytes of [treeHeight], not of
    [rootPid], in bytes 0..3 of page 0; bytes 4..7 are the ones read at
    [open].  Opening the file again yields root 2: the root page id is not
    restored. *)
Theorem close_reopen_loses_root :
  getRoot scenario_index = 3
  /\ getHeight scenario_index = 2
  /\ fst (close scenario_index) = 0
  /\ firstn 4 (nth 0 (mf_pages (pf (snd (close scenario_index)))) [])
     = int_bytes (treeHeight scenario_index)
  /\ firstn 4 (nth 0 (mf_pages (pf (snd (close scenario_index)))) [])
     <> int_bytes (rootPid scenario_index)
  /\ fst (open "movie.idx" "w" (snd (close scenario_index))) = 0
  /\ getRoot (snd (open "movie.idx" "w" (snd (close scenario_index)))) = 2
  /\ getHeight (snd (open "movie.idx" "w" (snd (close scenario_index)))) = 2.
Proof.
  vm_compute. repeat split; discriminate.
Qed.

(** C2 (the defect at work). On the empty index [insert] reports success
    and changes nothing: the height stays 0, the root stays -1 and the file
    still has its single metadata page, so no leaf was allocated. *)
Theorem insert_on_empty_tree_is_a_no_op :
  getHeight empty_index = 0
  /\ fst (insert 5 rid0 empty_index) = 0
  /\ snd (insert 5 rid0 empty_index) = empty_index
  /\ getHeight (snd (insert 5 rid0 empty_index)) = 0
  /\ getRoot (snd (insert 5 rid0 empty_index)) = -1
  /\ pf_endPid (pf (snd (insert 5 rid0 empty_index))) = 1.
Proof.
  vm_compute. repeat split.
Qed.

(** C5 (the defect at work). On the empty index [locate 5] enters the
    descent loop, fails to read page -1 and returns the error of that read,
    which is not NotFound; the cursor is left as it was. *)
Theorem locate_on_empty_tree :
  getRoot empty_index = -1
  /\ getHeight empty_index = 0
  /\ locate mem_codes flat_layout 5 cursor0 empty_index
     = Some (IOError, cursor0, empty_index)
  /\ IOError <> RC_NO_SUCH_RECORD mem_codes.
Proof.
  split; [reflexivity|]. split; [reflexivity|]. split.
  - apply locate_root_read_error with (node := BTNonLeafNode_new).
    + vm_compute. discriminate.
    + reflexivity.
    + reflexivity.
  - vm_compute. discriminate.
Qed.

(** C6 (the defect at work). With a cursor on page -1 the read of the leaf
    fails first, so [readForward] returns the error of the read and never
    reaches the test that yields InvalidCursor. *)
Theorem readForward_invalid_pid_not_InvalidCursor :
  fst (fst (fst (readForward mem_codes flat_layout {| pid := -1; eid := 0 |}
                             0 rid0 scenario_index)))
  = IOError
  /\ IOError <> RC_INVALID_CURSOR mem_codes.
Proof.
  split.
  - rewrite readForward_read_error with (rc := IOError) (leaf := BTLeafNode_new);
      reflexivity.
  - vm_compute. discriminate.
Qed.

(** The worked scenario of the specification: [locate 25] ends on the
    leaf [10,20,30] of page 1 with the insertion point 2. *)
Lemma locate_descends_then_searches_witness :
  locate mem_codes flat_layout 25 cursor0 scenario_index
  = Some (RC_NO_SUCH_RECORD mem_codes, {| pid := 1; eid := 2 |}, scenario_index).
Proof.
  refine (proj2 (locate_descends_then_searches mem_codes flat_layout
                   scenario_index 25 cursor0 1 0
                   (snd (leaf_read BTLeafNode_new 1 (pf scenario_index)))
                   _ _ _ _) _).
  - vm_compute. split; discriminate.
  - vm_compute. reflexivity.
  - vm_compute. reflexivity.
  - lia.
  - vm_compute. reflexivity.
Defined.

(** Reading at the last entry of the leaf on page 1 yields key 30 and moves
    the cursor to entry 0 of page 2. *)
Lemma readForward_success_witness :
  nth_error (leaf_entries (leaf_data flat_layout
               (snd (leaf_read BTLeafNode_new 1 (pf scenario_index))))) 2
  = Some (30, {| rid_pid := 1; rid_sid := 2 |})
  /\ {| pid := 2; eid := 0 |}
     = (if 2 + 1 <? leaf_getKeyCount flat_layout
                      (snd (leaf_read BTLeafNode_new 1 (pf scenario_index)))
        then {| pid := 1; eid := 2 + 1 |}
        else {| pid := leaf_getNextNodePtr flat_layout
                         (snd (leaf_read BTLeafNode_new 1 (pf scenario_index)));
                eid := 0 |}).
Proof.
  pose proof (readForward_success mem_codes flat_layout
                scenario_index scenario_index
                {| pid := 1; eid := 2 |} {| pid := 2; eid := 0 |}
                0 30 rid0 {| rid_pid := 1; rid_sid := 2 |} 0) as W.
  cbn zeta in W. cbn [pid eid] in W.
  destruct W as (Hentry & _ & Hcursor).
  - vm_compute. reflexivity.
  - lia.
  - vm_compute. reflexivity.
  - split; [exact Hentry|exact Hcursor].
Defined.

Lemma search_preserves_root_and_height_witness :
  getRoot (snd (readForward mem_codes flat_layout {| pid := 1; eid := 0 |}
                            0 rid0 scenario_index)) = getRoot scenario_index
  /\ getHeight (snd (readForward mem_codes flat_layout {| pid := 1; eid := 0 |}
                               0 rid0 scenario_index)) = getHeight scenario_index.
Proof.
  refine (proj2 (search_preserves_root_and_height mem_codes flat_layout
                   scenario_index 25 {| pid := 1; eid := 0 |} 0 rid0 _)).
  vm_compute. split; discriminate.
Defined.

(** * Further properties of the index *)

Section IndexMore.
Context {PF : Type} `{PageFile PF}.
Variable codes : ErrorCodes.
Variable layout : NodeLayout.

Lemma memcpy_from_0_int (x : Z) (rest : list Z) :
  in_int x -> memcpy_from (int_bytes x ++ rest) 0 = x.
Proof.
  intros Hx. unfold memcpy_from. cbn [skipn int_bytes app firstn].
  apply (bytes_int_int_bytes _ Hx).
Qed.

Lemma memcpy_from_4_int (x y : Z) (rest : list Z) :
  in_int y -> memcpy_from (int_bytes x ++ int_bytes y ++ rest) 4 = y.
Proof.
  intros Hy. unfold memcpy_from. cbn [skipn int_bytes app firstn].
  apply (bytes_int_int_bytes _ Hy).
Qed.

(** X1. [open] decodes page 0 as two consecutive [int]s: when the storage
    opens, has pages and the read yields a page that starts with the bytes
    of a root id [r > 0] followed by the bytes of a height [h >= 0], the
    index ends with [rootPid = r] and [treeHeight = h], whatever it held
    before. *)
Theorem open_loads_encoded_metadata
    (this : BTreeIndex PF) (indexname : string) (mode : ascii)
    (rc0 rc : RC) (f1 : PF) (r h : Z) (rest : list Z) :
  pf_open (pf this) indexname mode = (rc0, f1) ->
  0 <= rc0 ->
  pf_endPid f1 <> 0 ->
  pf_read f1 0 (buffer this) = (rc, int_bytes r ++ int_bytes h ++ rest) ->
  0 <= rc ->
  0 < r <= INT_MAX ->
  0 <= h <= INT_MAX ->
  open indexname mode this
  = (rc, {| pf := f1; rootPid := r; treeHeight := h;
            buffer := int_bytes r ++ int_bytes h ++ rest |}).
Proof.
  intros Hopen Hrc0 Hend Hread Hrc Hr Hh.
  unfold open. rewrite Hopen.
  cbn [set_pf set_rootPid set_treeHeight set_buffer pf buffer rootPid treeHeight].
  replace (rc0 <? 0) with false by (symmetry; apply Z.ltb_ge; lia).
  replace (pf_endPid f1 =? 0) with false by (symmetry; apply Z.eqb_neq; assumption).
  rewrite Hread.
  replace (rc <? 0) with false by (symmetry; apply Z.ltb_ge; lia).
  rewrite memcpy_from_0_int, memcpy_from_4_int
    by (unfold in_int, INT_MIN, INT_MAX in *; lia).
  replace (r >? 0) with true by (symmetry; apply Z.gtb_lt; lia).
  replace (h >=? 0) with true by (symmetry; apply Z.geb_le; lia).
  reflexivity.
Qed.

(** X2. [open] never resets the tree when page 0 does not validate: with a
    loaded root id that is not positive or a loaded height that is
    negative, the index keeps the [rootPid] and [treeHeight] it held before
    the call (the values of an earlier session when the object is reused),
    and [open] returns the code of the successful read. *)
Theorem open_invalid_metadata_keeps_previous_tree
    (this : BTreeIndex PF) (indexname : string) (mode : ascii)
    (rc0 rc : RC) (f1 : PF) (page0 : Buffer) :
  pf_open (pf this) indexname mode = (rc0, f1) ->
  0 <= rc0 ->
  pf_endPid f1 <> 0 ->
  pf_read f1 0 (buffer this) = (rc, page0) ->
  0 <= rc ->
  memcpy_from page0 0 <= 0 \/ memcpy_from page0 4 < 0 ->
  open indexname mode this
  = (rc, {| pf := f1; rootPid := rootPid this; treeHeight := treeHeight this;
            buffer := page0 |}).
Proof.
  intros Hopen Hrc0 Hend Hread Hrc Hbad.
  unfold open. rewrite Hopen.
  cbn [set_pf set_rootPid set_treeHeight set_buffer pf buffer rootPid treeHeight].
  replace (rc0 <? 0) with false by (symmetry; apply Z.ltb_ge; lia).
  replace (pf_endPid f1 =? 0) with false by (symmetry; apply Z.eqb_neq; assumption).
  rewrite Hread.
  replace (rc <? 0) with false by (symmetry; apply Z.ltb_ge; lia).
  replace ((memcpy_from page0 0 >? 0) && (memcpy_from page0 4 >=? 0)) with false.
  - reflexivity.
  - symmetry. apply andb_false_iff.
    destruct Hbad as [Hp|Hh]; [left|right].
    + rewrite Z.gtb_ltb. apply Z.ltb_ge. lia.
    + rewrite Z.geb_leb. apply Z.leb_gt. lia.
Qed.


(** After a successful read of the leaf, with the cursor on one of its
    entries and on a page id above 0, [readForward] returns that entry and
    the advanced cursor. *)
Lemma readForward_at_entry
    (this : BTreeIndex PF) (cursor : IndexCursor) (key : Z) (rid : RecordId)
    (rc : RC) (leaf : BTLeafNode) :
  leaf_read BTLeafNode_new (pid cursor) (pf this) = (rc, leaf) ->
  0 <= rc ->
  0 < pid cursor ->
  0 <= eid cursor < leaf_getKeyCount layout leaf ->
  leaf_getKeyCount layout leaf <= INT_MAX ->
  readForward codes layout cursor key rid this
  = (0,
     (if eid cursor + 1 <? leaf_getKeyCount layout leaf
      then {| pid := pid cursor; eid := eid cursor + 1 |}
      else {| pid := leaf_getNextNodePtr layout leaf; eid := 0 |}),
     nth (Z.to_nat (eid cursor)) (leaf_entries (leaf_data layout leaf)) (key, rid),
     this).
Proof.
  intros Hread Hrc Hpid Heid Hcount.
  unfold readForward, leaf_readEntry. rewrite Hread.
  replace (rc <? 0) with false by (symmetry; apply Z.ltb_ge; lia).
  replace ((eid cursor <? 0) || (leaf_getKeyCount layout leaf <=? eid cursor))
    with false.
  2:{ symmetry. apply orb_false_iff. split; [apply Z.ltb_ge|apply Z.leb_gt]; lia. }
  cbn [Z.ltb Z.compare].
  replace (pid cursor <=? 0) with false by (symmetry; apply Z.leb_gt; lia).
  rewrite int32_in_range by (unfold in_int, INT_MIN, INT_MAX in *; lia).
  destruct (eid cursor + 1 <? leaf_getKeyCount layout leaf); reflexivity.
Qed.

(** In a tree of height at least 1 whose descent reaches a readable leaf,
    [locate] returns what the search inside that leaf returns. *)
Lemma locate_reaches_leaf
    (this : BTreeIndex PF) (searchKey : Z) (cursor : IndexCursor)
    (leafPid : PageId) (rc : RC) (leaf : BTLeafNode) :
  1 <= treeHeight this <= INT_MAX ->
  descend_levels layout (pf this) searchKey (Z.to_nat (treeHeight this - 1))
                 BTNonLeafNode_new (rootPid this) = inr leafPid ->
  leaf_read BTLeafNode_new leafPid (pf this) = (rc, leaf) ->
  0 <= rc ->
  locate codes layout searchKey cursor this
  = Some (fst (leaf_locate codes layout leaf searchKey),
          {| pid := leafPid; eid := snd (leaf_locate codes layout leaf searchKey) |},
          this).
Proof.
  intros Hh Hdescend Hread Hrc.
  assert (Hloop : locate_loop layout (locate_fuel (treeHeight this)) (pf this)
                    searchKey (treeHeight this) BTNonLeafNode_new 1 (rootPid this)
                  = Some (inr leafPid)).
  { rewrite <- Hdescend. apply locate_loop_descend.
    - unfold in_int, INT_MIN, INT_MAX in *. lia.
    - unfold in_int, INT_MIN, INT_MAX. lia.
    - lia.
    - apply locate_fuel_enough. assumption. }
  unfold locate. rewrite Hloop, Hread.
  replace (rc <? 0) with false by (symmetry; apply Z.ltb_ge; lia).
  destruct (leaf_locate codes layout leaf searchKey) as [rc' e]. cbn [fst snd].
  destruct (rc' <? 0); reflexivity.
Qed.

(** X4. The test on the page id of the cursor comes after the entry is
    read: with a cursor whose page id is 0 or negative, on a page that can
    be read and holds an entry at the cursor, [readForward] returns
    InvalidCursor and leaves the cursor alone, but the output arguments
    already hold the entry that was read. *)
Theorem readForward_invalid_cursor_after_output
    (this : BTreeIndex PF) (cursor : IndexCursor) (key : Z) (rid : RecordId)
    (rc : RC) (leaf : BTLeafNode) :
  leaf_read BTLeafNode_new (pid cursor) (pf this) = (rc, leaf) ->
  0 <= rc ->
  pid cursor <= 0 ->
  0 <= eid cursor < leaf_getKeyCount layout leaf ->
  readForward codes layout cursor key rid this
  = (RC_INVALID_CURSOR codes, cursor,
     nth (Z.to_nat (eid cursor)) (leaf_entries (leaf_data layout leaf)) (key, rid),
     this).
Proof.
  intros Hread Hrc Hpid Heid.
  unfold readForward, leaf_readEntry. rewrite Hread.
  replace (rc <? 0) with false by (symmetry; apply Z.ltb_ge; lia).
  replace ((eid cursor <? 0) || (leaf_getKeyCount layout leaf <=? eid cursor))
    with false.
  2:{ symmetry. apply orb_false_iff. split; [apply Z.ltb_ge|apply Z.leb_gt]; lia. }
  cbn [Z.ltb Z.compare].
  replace (pid cursor <=? 0) with true by (symmetry; apply Z.leb_le; lia).
  reflexivity.
Qed.

(** X5. A successful [locate] followed by [readForward] on the cursor it
    returned yields the search key itself: in a tree of height at least 1
    whose descent ends on a readable leaf with a page id above 0 that holds
    the key, [locate] returns 0 and the following [readForward] returns 0
    with the search key as its key. *)
Theorem locate_then_readForward_found
    (this : BTreeIndex PF) (searchKey : Z) (cursor : IndexCursor)
    (key : Z) (rid : RecordId)
    (leafPid : PageId) (rc : RC) (leaf : BTLeafNode) (e : Z) :
  1 <= treeHeight this <= INT_MAX ->
  descend_levels layout (pf this) searchKey (Z.to_nat (treeHeight this - 1))
                 BTNonLeafNode_new (rootPid this) = inr leafPid ->
  leaf_read BTLeafNode_new leafPid (pf this) = (rc, leaf) ->
  0 <= rc ->
  0 < leafPid ->
  leaf_getKeyCount layout leaf <= INT_MAX ->
  key_index (leaf_entries (leaf_data layout leaf)) searchKey = Some e ->
  exists (found : IndexCursor) (next : IndexCursor) (rid' : RecordId),
    locate codes layout searchKey cursor this = Some (0, found, this)
    /\ readForward codes layout found key rid this
       = (0, next, (searchKey, rid'), this).
Proof.
  intros Hh Hdescend Hread Hrc Hpid Hcount He.
  destruct (key_index_found _ _ _ He) as (Hrange & rid' & Hnth).
  exists {| pid := leafPid; eid := e |}.
  eexists. exists rid'. split.
  - rewrite (locate_reaches_leaf this searchKey cursor leafPid rc leaf) by assumption.
    unfold leaf_locate. rewrite He. reflexivity.
  - assert (He' : 0 <= e < leaf_getKeyCount layout leaf)
      by (unfold leaf_getKeyCount; lia).
    rewrite (readForward_at_entry this {| pid := leafPid; eid := e |} key rid rc leaf)
      by (cbn [pid eid]; assumption).
    cbn [pid eid]. rewrite (nth_error_nth _ _ _ Hnth). reflexivity.
Qed.

(** X6. When every key of the leaf the descent reaches is smaller than the
    search key, [locate] returns NotFound with the cursor one past the last
    entry of that leaf, and [readForward] on this cursor fails with
    InvalidIndex and moves nothing: the walk does not continue in the next
    leaf. *)
Theorem locate_past_leaf_end_then_readForward
    (this : BTreeIndex PF) (searchKey : Z) (cursor : IndexCursor)
    (key : Z) (rid : RecordId)
    (leafPid : PageId) (rc : RC) (leaf : BTLeafNode) :
  1 <= treeHeight this <= INT_MAX ->
  descend_levels layout (pf this) searchKey (Z.to_nat (treeHeight this - 1))
                 BTNonLeafNode_new (rootPid this) = inr leafPid ->
  leaf_read BTLeafNode_new leafPid (pf this) = (rc, leaf) ->
  0 <= rc ->
  Forall (fun entry => fst entry < searchKey) (leaf_entries (leaf_data layout leaf)) ->
  let past := {| pid := leafPid; eid := leaf_getKeyCount layout leaf |} in
  locate codes layout searchKey cursor this
  = Some (RC_NO_SUCH_RECORD codes, past, this)
  /\ readForward codes layout past key rid this
     = (RC_INVALID_INDEX codes, past, (key, rid), this).
Proof.
  intros Hh Hdescend Hread Hrc Hsmall past.
  assert (Hnone : forall (p : Z * RecordId -> bool) (i : Z),
             (forall entry, fst entry < searchKey -> p entry = false) ->
             find_index p (leaf_entries (leaf_data layout leaf)) i = None).
  { intros p i Hp. revert i.
    induction Hsmall as [|x l Hx _ IH]; intros i; simpl; [reflexivity|].
    rewrite (Hp x Hx). apply IH. }
  split.
  - rewrite (locate_reaches_leaf this searchKey cursor leafPid rc leaf) by assumption.
    unfold leaf_locate, key_index, insertion_point.
    rewrite !Hnone.
    + reflexivity.
    + intros entry Hlt. apply Z.leb_gt. assumption.
    + intros entry Hlt. apply Z.eqb_neq. lia.
  - apply (readForward_entry_error codes layout this past key rid rc leaf);
      subst past; cbn [pid eid]; try assumption.
    right. lia.
Qed.

(** X7. When the key is absent but the leaf holds a key that is at least
    the search key, [locate] returns NotFound and [readForward] on the
    cursor it returned succeeds with the entry at the insertion point: its
    key is greater than the search key and every entry before it has a
    smaller key. *)
Theorem locate_absent_then_readForward_next_key
    (this : BTreeIndex PF) (searchKey : Z) (cursor : IndexCursor)
    (key : Z) (rid : RecordId)
    (leafPid : PageId) (rc : RC) (leaf : BTLeafNode) :
  let entries := leaf_entries (leaf_data layout leaf) in
  1 <= treeHeight this <= INT_MAX ->
  descend_levels layout (pf this) searchKey (Z.to_nat (treeHeight this - 1))
                 BTNonLeafNode_new (rootPid this) = inr leafPid ->
  leaf_read BTLeafNode_new leafPid (pf this) = (rc, leaf) ->
  0 <= rc ->
  0 < leafPid ->
  leaf_getKeyCount layout leaf <= INT_MAX ->
  key_index entries searchKey = None ->
  Exists (fun entry => searchKey <= fst entry) entries ->
  exists (at_ip next : IndexCursor) (key' : Z) (rid' : RecordId),
    locate codes layout searchKey cursor this
    = Some (RC_NO_SUCH_RECORD codes, at_ip, this)
    /\ readForward codes layout at_ip key rid this = (0, next, (key', rid'), this)
    /\ searchKey < key'
    /\ nth_error entries (Z.to_nat (eid at_ip)) = Some (key', rid')
    /\ (forall (n : nat) (k : Z) (r : RecordId),
           (n < Z.to_nat (eid at_ip))%nat ->
           nth_error entries n = Some (k, r) -> k < searchKey).
Proof.
  intros entries Hh Hdescend Hread Hrc Hpid Hcount Habsent Hex.
  destruct (insertion_point_spec entries searchKey) as (Hrange & Hbefore & Hat).
  assert (Hlt : insertion_point entries searchKey < Z.of_nat (length entries)).
  { unfold insertion_point in *.
    destruct (find_index _ entries 0) as [i|] eqn:Hfind.
    - destruct (find_index_some _ _ _ _ Hfind) as (Hr & _). lia.
    - exfalso. apply Exists_exists in Hex. destruct Hex as (x & Hin & Hx).
      pose proof (find_index_none _ _ _ Hfind x Hin) as Hp. simpl in Hp.
      apply Z.leb_gt in Hp. lia. }
  destruct (nth_error entries (Z.to_nat (insertion_point entries searchKey)))
    as [[key' rid']|] eqn:Hnth.
  2:{ apply nth_error_None in Hnth. lia. }
  exists {| pid := leafPid; eid := insertion_point entries searchKey |}.
  eexists. exists key', rid'. cbn [eid]. split; [|split; [|split; [|split]]].
  - rewrite (locate_reaches_leaf this searchKey cursor leafPid rc leaf) by assumption.
    unfold leaf_locate. fold entries. rewrite Habsent. reflexivity.
  - assert (Hip : 0 <= insertion_point entries searchKey
                  < leaf_getKeyCount layout leaf)
      by (unfold leaf_getKeyCount; fold entries; lia).
    rewrite (readForward_at_entry this
               {| pid := leafPid; eid := insertion_point entries searchKey |}
               key rid rc leaf)
      by (cbn [pid eid]; assumption).
    cbn [pid eid]. fold entries. rewrite (nth_error_nth _ _ _ Hnth). reflexivity.
  - pose proof (Hat _ _ eq_refl) as Hge.
    assert (key' <> searchKey).
    { intros ->. apply nth_error_In in Hnth.
      exact (key_index_absent _ _ Habsent _ Hnth). }
    lia.
  - exact Hnth.
  - exact Hbefore.
Qed.

(** Reading forward from entry [i] of a leaf walks through the rest of its
    entries. *)
Lemma readForward_n_leaf
    (this : BTreeIndex PF) (p : PageId) (rc : RC) (leaf : BTLeafNode) :
  leaf_read BTLeafNode_new p (pf this) = (rc, leaf) ->
  0 <= rc ->
  0 < p ->
  leaf_getKeyCount layout leaf <= INT_MAX ->
  forall (n i : nat) (key : Z) (rid : RecordId),
    (0 < n)%nat ->
    (i + n = length (leaf_entries (leaf_data layout leaf)))%nat ->
    readForward_n codes layout n {| pid := p; eid := Z.of_nat i |} key rid this
    = (skipn i (leaf_entries (leaf_data layout leaf)),
       {| pid := leaf_getNextNodePtr layout leaf; eid := 0 |}, 0).
Proof.
  intros Hread Hrc Hp Hcount.
  induction n as [|n IH]; intros i key rid Hn Hlen; [lia|].
  cbn [readForward_n].
  assert (Hi : 0 <= Z.of_nat i < leaf_getKeyCount layout leaf)
    by (unfold leaf_getKeyCount; lia).
  rewrite (readForward_at_entry this {| pid := p; eid := Z.of_nat i |} key rid rc leaf)
    by (cbn [pid eid]; assumption).
  cbn [pid eid]. clear Hi.
  cbn [Z.ltb Z.compare].
  set (entries := leaf_entries (leaf_data layout leaf)) in *.
  rewrite Nat2Z.id.
  assert (Hskip : skipn i entries = nth i entries (key, rid) :: skipn (S i) entries).
  { clear - Hlen. revert i Hlen.
    induction entries as [|x l IHl]; intros i Hlen; simpl in Hlen; [lia|].
    destruct i as [|i]; [reflexivity|].
    simpl. apply IHl. lia. }
  unfold leaf_getKeyCount. fold entries.
  destruct n as [|n].
  - replace (Z.of_nat i + 1 <? Z.of_nat (length entries)) with false
      by (symmetry; apply Z.ltb_ge; lia).
    cbn [readForward_n]. rewrite Hskip.
    replace (skipn (S i) entries) with (@nil (Z * RecordId)).
    + reflexivity.
    + symmetry. apply skipn_all2. lia.
  - replace (Z.of_nat i + 1 <? Z.of_nat (length entries)) with true
      by (symmetry; apply Z.ltb_lt; lia).
    replace (Z.of_nat i + 1) with (Z.of_nat (S i)) by lia.
    rewrite IH by lia. rewrite Hskip. reflexivity.
Qed.

(** X8. Walking a leaf: from entry 0 of a readable leaf on a page id above
    0, as many calls of [readForward] as the leaf has entries return all its
    entries in order without error, and leave the cursor on entry 0 of the
    page its next-node pointer names. *)
Theorem readForward_walks_leaf
    (this : BTreeIndex PF) (p : PageId) (rc : RC) (leaf : BTLeafNode)
    (key : Z) (rid : RecordId) :
  leaf_read BTLeafNode_new p (pf this) = (rc, leaf) ->
  0 <= rc ->
  0 < p ->
  0 < leaf_getKeyCount layout leaf <= INT_MAX ->
  readForward_n codes layout (length (leaf_entries (leaf_data layout leaf)))
                {| pid := p; eid := 0 |} key rid this
  = (leaf_entries (leaf_data layout leaf),
     {| pid := leaf_getNextNodePtr layout leaf; eid := 0 |}, 0).
Proof.
  intros Hread Hrc Hp Hcount.
  apply (readForward_n_leaf this p rc leaf Hread Hrc Hp (proj2 Hcount)
           (length (leaf_entries (leaf_data layout leaf))) 0%nat key rid).
  - unfold leaf_getKeyCount in Hcount. lia.
  - reflexivity.
Qed.

(** X19. An error on the way down leaves the cursor of the caller alone.
    In a tree of height at least 1, when the descent fails at an internal
    node, or reaches a leaf that cannot be read, [locate] returns that
    error, and the cursor and the index are as they were before the
    call. *)
Theorem locate_io_error_keeps_cursor
    (this : BTreeIndex PF) (searchKey : Z) (cursor : IndexCursor) (rc : RC) :
  1 <= treeHeight this <= INT_MAX ->
  rc < 0 ->
  descend_levels layout (pf this) searchKey (Z.to_nat (treeHeight this - 1))
                 BTNonLeafNode_new (rootPid this) = inl rc
  \/ (exists leafPid : PageId,
         descend_levels layout (pf this) searchKey (Z.to_nat (treeHeight this - 1))
                        BTNonLeafNode_new (rootPid this) = inr leafPid
         /\ fst (leaf_read BTLeafNode_new leafPid (pf this)) = rc) ->
  locate codes layout searchKey cursor this = Some (rc, cursor, this).
Proof.
  intros Hh Hrc Hfail.
  assert (Hloop : forall r,
             descend_levels layout (pf this) searchKey (Z.to_nat (treeHeight this - 1))
                            BTNonLeafNode_new (rootPid this) = r ->
             locate_loop layout (locate_fuel (treeHeight this)) (pf this)
               searchKey (treeHeight this) BTNonLeafNode_new 1 (rootPid this)
             = Some r).
  { intros r <-. apply locate_loop_descend.
    - unfold in_int, INT_MIN, INT_MAX in *. lia.
    - unfold in_int, INT_MIN, INT_MAX. lia.
    - lia.
    - apply locate_fuel_enough. assumption. }
  unfold locate.
  destruct Hfail as [Hd|(leafPid & Hd & Hread)]; rewrite (Hloop _ Hd).
  - reflexivity.
  - destruct (leaf_read BTLeafNode_new leafPid (pf this)) as [rc' leaf].
    cbn [fst] in Hread. subst rc'.
    replace (rc <? 0) with true by (symmetry; apply Z.ltb_lt; lia).
    reflexivity.
Qed.

End IndexMore.

(** * Properties of the load-file parser *)

(** ** Strings *)

Lemma all_chars_weaken (p q : ascii -> bool) (s : string) :
  (forall c, p c = true -> q c = true) ->
  all_chars p s = true -> all_chars q s = true.
Proof.
  intros Hpq. induction s as [|c s IH]; simpl; [reflexivity|].
  intros Hs. apply andb_true_iff in Hs. destruct Hs as [Hc Hs].
  rewrite (Hpq _ Hc), (IH Hs). reflexivity.
Qed.

Lemma all_chars_app (p : ascii -> bool) (a b : string) :
  all_chars p (a ++ b)%string = all_chars p a && all_chars p b.
Proof.
  induction a as [|c a IH]; simpl; [reflexivity|].
  rewrite IH, andb_assoc. reflexivity.
Qed.

Lemma c_str_app (a b : string) :
  all_chars (fun c => negb (Ascii.eqb c NUL)) a = true ->
  c_str (a ++ b)%string = (a ++ c_str b)%string.
Proof.
  induction a as [|c a IH]; simpl; [reflexivity|].
  intros Ha. apply andb_true_iff in Ha. destruct Ha as [Hc Ha].
  apply negb_true_iff in Hc. rewrite Hc, (IH Ha). reflexivity.
Qed.

Lemma c_str_no_NUL (s : string) :
  all_chars (fun c => negb (Ascii.eqb c NUL)) s = true -> c_str s = s.
Proof.
  induction s as [|c s IH]; simpl; [reflexivity|].
  intros Hs. apply andb_true_iff in Hs. destruct Hs as [Hc Hs].
  apply negb_true_iff in Hc. rewrite Hc, (IH Hs). reflexivity.
Qed.

Lemma skip_blanks_app (pad s : string) :
  all_chars is_blank pad = true ->
  is_blank (peek s) = false ->
  skip_blanks (pad ++ s)%string = s.
Proof.
  intros Hpad Hs. induction pad as [|c pad IH]; simpl in *.
  - destruct s as [|c s]; [reflexivity|]. simpl in *. rewrite Hs. reflexivity.
  - apply andb_true_iff in Hpad. destruct Hpad as [Hc Hpad].
    rewrite Hc. apply IH. assumption.
Qed.

Lemma skip_blanks_chars (s : string) (c : ascii) :
  is_blank c = false ->
  In c (chars (skip_blanks s)) <-> In c (chars s).
Proof.
  intros Hc. induction s as [|a s IH]; simpl; [reflexivity|].
  destruct (is_blank a) eqn:Ea; [|reflexivity].
  rewrite IH. split; [right; assumption|].
  intros [Heq|Hin]; [|assumption]. subst a. congruence.
Qed.

Lemma strchr_none (s : string) (c : ascii) :
  ~ In c (chars s) -> strchr s c = None.
Proof.
  induction s as [|a s IH]; simpl; [reflexivity|].
  intros Hnot. destruct (Ascii.eqb a c) eqn:E.
  - apply Ascii.eqb_eq in E. exfalso. apply Hnot. left. assumption.
  - apply IH. intros Hin. apply Hnot. right. assumption.
Qed.

Lemma strchr_some (s : string) (c : ascii) :
  In c (chars s) -> exists rest, strchr s c = Some (String c rest).
Proof.
  induction s as [|a s IH]; simpl; [contradiction|].
  intros Hin. destruct (Ascii.eqb a c) eqn:E.
  - apply Ascii.eqb_eq in E. subst a. exists s. reflexivity.
  - apply IH. destruct Hin as [Heq|Hin]; [|assumption].
    subst a. rewrite Ascii.eqb_refl in E. discriminate.
Qed.

Lemma strchr_app (a b : string) (c : ascii) :
  all_chars (fun x => negb (Ascii.eqb x c)) a = true ->
  strchr (a ++ b)%string c = strchr b c.
Proof.
  induction a as [|x a IH]; simpl; [reflexivity|].
  intros Ha. apply andb_true_iff in Ha. destruct Ha as [Hx Ha].
  apply negb_true_iff in Hx. rewrite Hx. apply IH. assumption.
Qed.

Lemma string_find_none (s : string) (c : ascii) :
  all_chars (fun x => negb (Ascii.eqb x c)) s = true -> string_find s c = None.
Proof.
  induction s as [|x s IH]; simpl; [reflexivity|].
  intros Hs. apply andb_true_iff in Hs. destruct Hs as [Hx Hs].
  apply negb_true_iff in Hx. rewrite Hx, (IH Hs). reflexivity.
Qed.

Lemma string_find_app (a b : string) (c : ascii) :
  all_chars (fun x => negb (Ascii.eqb x c)) a = true ->
  string_find (a ++ String c b)%string c = Some (String.length a).
Proof.
  induction a as [|x a IH]; simpl.
  - rewrite Ascii.eqb_refl. reflexivity.
  - intros Ha. apply andb_true_iff in Ha. destruct Ha as [Hx Ha].
    apply negb_true_iff in Hx. rewrite Hx, (IH Ha). reflexivity.
Qed.

Lemma string_erase_app (a b : string) :
  string_erase (a ++ b)%string (String.length a) = a.
Proof.
  unfold string_erase. induction a as [|x a IH]; simpl.
  - destruct b; reflexivity.
  - rewrite IH. reflexivity.
Qed.

(** What [string_find] followed by [string_erase] leaves holds no [c]. *)
Lemma string_find_erase (s : string) (c : ascii) :
  forall loc, string_find s c = Some loc ->
  all_chars (fun x => negb (Ascii.eqb x c)) (string_erase s loc) = true.
Proof.
  unfold string_erase. induction s as [|x s IH]; simpl; intros loc Hloc; [discriminate|].
  destruct (Ascii.eqb x c) eqn:E.
  - injection Hloc as <-. reflexivity.
  - destruct (string_find s c) as [n|]; [|discriminate].
    injection Hloc as <-. simpl. rewrite E. simpl. apply IH. reflexivity.
Qed.

(** ** Decimal numbers *)

Lemma string_of_uint_digits (d : Decimal.uint) :
  all_chars isdigit (DecimalString.NilEmpty.string_of_uint d) = true.
Proof. induction d; simpl; try assumption; reflexivity. Qed.

Lemma atoi_digits_uint_acc (d : Decimal.uint) (rest : string) :
  isdigit (peek rest) = false ->
  forall acc : positive,
    atoi_digits (DecimalString.NilEmpty.string_of_uint d ++ rest)%string (Z.pos acc)
    = Z.pos (Pos.of_uint_acc d acc).
Proof.
  intros Hrest.
  induction d; intros acc; cbn [DecimalString.NilEmpty.string_of_uint String.append Pos.of_uint_acc];
    try (cbn [atoi_digits];
         match goal with |- context [isdigit ?c] => change (isdigit c) with true end;
         cbn iota; rewrite <- IHd; f_equal;
         match goal with
         | |- context [digit_value ?c] =>
           let v := eval vm_compute in (digit_value c) in
           change (digit_value c) with v
         end; lia).
  destruct rest as [|c rest]; [reflexivity|].
  cbn [atoi_digits]. cbn [peek] in Hrest. rewrite Hrest. reflexivity.
Qed.

Lemma atoi_digits_uint (d : Decimal.uint) (rest : string) :
  isdigit (peek rest) = false ->
  atoi_digits (DecimalString.NilEmpty.string_of_uint d ++ rest)%string 0
  = Z.of_N (Pos.of_uint d).
Proof.
  intros Hrest.
  induction d; cbn [DecimalString.NilEmpty.string_of_uint String.append Pos.of_uint];
    try (cbn [atoi_digits];
         match goal with |- context [isdigit ?c] => change (isdigit c) with true end;
         cbn iota; cbn [Z.of_N]; rewrite <- (atoi_digits_uint_acc _ _ Hrest); f_equal).
  - destruct rest as [|c rest]; [reflexivity|].
    cbn [atoi_digits]. cbn [peek] in Hrest. rewrite Hrest. reflexivity.
  - cbn [atoi_digits]. change (isdigit "0") with true. cbn iota. exact IHd.
Qed.

Lemma atoi_uint (d : Decimal.uint) (rest : string) :
  d <> Decimal.Nil ->
  isdigit (peek rest) = false ->
  atoi (DecimalString.NilEmpty.string_of_uint d ++ rest)%string = int32 (Z.of_N (Pos.of_uint d)).
Proof.
  intros Hnil Hrest.
  pose proof (string_of_uint_digits d) as Hdig.
  pose proof (atoi_digits_uint d rest Hrest) as Hval.
  unfold atoi.
  destruct (DecimalString.NilEmpty.string_of_uint d) as [|c s] eqn:Es.
  - destruct d; try discriminate. congruence.
  - cbn [all_chars] in Hdig. apply andb_true_iff in Hdig. destruct Hdig as [Hc _].
    cbn [String.append skip_spaces] in *.
    assert (Hsp : isspace c = false).
    { revert Hc. unfold isdigit, isspace.
      destruct c as [[] [] [] [] [] [] [] []]; cbn; intros; try reflexivity;
        discriminate. }
    rewrite Hsp, <- Hval.
    destruct c as [[] [] [] [] [] [] [] []]; try reflexivity; discriminate.
Qed.

(** [atoi] reads back what [%d] prints, up to the first character that is
    not a digit. *)
Lemma atoi_print_int (k : Z) (rest : string) :
  in_int k ->
  isdigit (peek rest) = false ->
  atoi (print_int k ++ rest)%string = k.
Proof.
  intros Hk Hrest. unfold print_int.
  destruct k as [|p|p]; cbn [Z.to_int DecimalString.NilEmpty.string_of_int].
  - rewrite atoi_uint by (assumption || discriminate). reflexivity.
  - rewrite atoi_uint by (assumption || apply DecimalPos.Unsigned.to_uint_nonnil).
    rewrite DecimalPos.Unsigned.of_to. apply int32_in_range. assumption.
  - pose proof (atoi_digits_uint (Pos.to_uint p) rest Hrest) as Hval.
    rewrite DecimalPos.Unsigned.of_to in Hval.
    unfold atoi. cbn [String.append skip_spaces].
    change (isspace "-") with false. cbn iota.
    rewrite Hval. apply int32_in_range. assumption.
Qed.

Lemma print_int_chars (k : Z) : all_chars key_char (print_int k) = true.
Proof.
  unfold print_int.
  assert (Hu : forall d, all_chars key_char (DecimalString.NilEmpty.string_of_uint d) = true).
  { intros d. apply (all_chars_weaken isdigit); [|apply string_of_uint_digits].
    intros c Hc. unfold key_char. rewrite Hc. reflexivity. }
  destruct k as [|p|p]; cbn [Z.to_int DecimalString.NilEmpty.string_of_int].
  - reflexivity.
  - apply Hu.
  - cbn [all_chars]. rewrite Hu. reflexivity.
Qed.

Lemma key_char_facts (c : ascii) :
  key_char c = true ->
  is_blank c = false /\ Ascii.eqb c NUL = false /\ Ascii.eqb c COMMA = false.
Proof.
  unfold key_char, isdigit, is_blank, NUL, COMMA, TAB.
  destruct c as [[] [] [] [] [] [] [] []]; cbn; intros; try discriminate;
    repeat split.
Qed.

Lemma print_int_nonempty (k : Z) :
  exists c s, print_int k = String c s /\ key_char c = true.
Proof.
  pose proof (print_int_chars k) as Hc.
  unfold print_int in *.
  destruct k as [|p|p]; cbn [Z.to_int DecimalString.NilEmpty.string_of_int] in *.
  - eexists _, _. split; reflexivity.
  - destruct (DecimalString.NilEmpty.string_of_uint (Pos.to_uint p)) as [|c s] eqn:Es.
    + pose proof (DecimalPos.Unsigned.to_uint_nonnil p).
      destruct (Pos.to_uint p); try discriminate. congruence.
    + exists c, s. split; [reflexivity|].
      cbn [all_chars] in Hc. apply andb_true_iff in Hc. tauto.
  - eexists _, _. split; reflexivity.
Qed.

Lemma skip_spaces_skip_blanks (s : string) :
  skip_spaces (skip_blanks s) = skip_spaces s.
Proof.
  induction s as [|c s IH]; [reflexivity|].
  cbn [skip_blanks]. destruct (is_blank c) eqn:Eb; [|reflexivity].
  cbn [skip_spaces]. rewrite IH.
  replace (isspace c) with true; [reflexivity|].
  unfold is_blank, isspace in *. apply orb_true_iff in Eb.
  destruct Eb as [Eb|Eb]; [rewrite Eb; reflexivity|].
  apply Ascii.eqb_eq in Eb. subst c. reflexivity.
Qed.

Lemma atoi_skip_blanks (s : string) : atoi (skip_blanks s) = atoi s.
Proof. unfold atoi. rewrite skip_spaces_skip_blanks. reflexivity. Qed.

Lemma string_find_none_inv (s : string) (c : ascii) :
  string_find s c = None -> all_chars (fun x => negb (Ascii.eqb x c)) s = true.
Proof.
  induction s as [|x s IH]; simpl; [reflexivity|].
  destruct (Ascii.eqb x c); [discriminate|].
  destruct (string_find s c); [discriminate|]. intros _. apply IH. reflexivity.
Qed.

(** ** [parseLoadLine] *)

Section ParseLoadLineFacts.
Variable RC_INVALID_FILE_FORMAT : RC.

(** The parse of a line that has no comma. *)
Lemma parseLoadLine_no_comma_eq (line : string) (key : Z) (value : string) :
  ~ In COMMA (chars (c_str line)) ->
  parseLoadLine RC_INVALID_FILE_FORMAT line key value
  = (RC_INVALID_FILE_FORMAT, (atoi (c_str line), value)).
Proof.
  intros Hnone. unfold parseLoadLine.
  rewrite strchr_none.
  - rewrite atoi_skip_blanks. reflexivity.
  - rewrite skip_blanks_chars by reflexivity. assumption.
Qed.



(** The line [<blanks><key>,<blanks><rest>] parses up to the comma: the key
    is read back and the scan stands on [rest]. *)
Lemma parseLoadLine_prefix (k : Z) (pad1 pad2 rest : string) :
  in_int k ->
  all_chars is_blank pad1 = true ->
  all_chars is_blank pad2 = true ->
  is_blank (peek rest) = false ->
  let s := skip_blanks (pad1 ++ print_int k ++ String COMMA (pad2 ++ rest))%string in
  atoi s = k
  /\ option_map (fun s' => skip_blanks (advance s')) (strchr s COMMA) = Some rest.
Proof.
  intros Hk Hp1 Hp2 Hrest s. subst s.
  destruct (print_int_nonempty k) as (c & t & Hprint & Hc).
  rewrite skip_blanks_app; [|assumption|].
  2:{ rewrite Hprint. cbn [String.append peek].
      apply (proj1 (key_char_facts c Hc)). }
  split.
  - apply atoi_print_int; [assumption|reflexivity].
  - rewrite strchr_app.
    + cbn [strchr]. rewrite Ascii.eqb_refl. cbn [option_map advance].
      rewrite skip_blanks_app by assumption. reflexivity.
    + apply (all_chars_weaken key_char); [|apply print_int_chars].
      intros x Hx. rewrite (proj2 (proj2 (key_char_facts x Hx))). reflexivity.
Qed.

(** The parse of a line whose value stands between two quotes. *)
Lemma parseLoadLine_quoted
    (k : Z) (v pad1 pad2 trailing : string) (q : ascii)
    (key : Z) (value : string) :
  in_int k ->
  q = SQUOTE \/ q = DQUOTE ->
  all_chars is_blank pad1 = true ->
  all_chars is_blank pad2 = true ->
  all_chars (fun c => negb (Ascii.eqb c q)) v = true ->
  all_chars (fun c => negb (Ascii.eqb c NUL)) v = true ->
  parseLoadLine RC_INVALID_FILE_FORMAT
    (pad1 ++ print_int k ++ String COMMA (pad2 ++ String q (v ++ String q trailing)))%string
    key value
  = (0, (k, v)).
Proof.
  intros Hk Hq Hp1 Hp2 Hvq Hvn.
  assert (Hblank_nn : forall s, all_chars is_blank s = true ->
                                all_chars (fun c => negb (Ascii.eqb c NUL)) s = true).
  { intros s. apply all_chars_weaken. intros c Hc.
    unfold is_blank in Hc. apply orb_true_iff in Hc.
    destruct Hc as [Hc|Hc]; apply Ascii.eqb_eq in Hc; subst c; reflexivity. }
  assert (Hq_nn : Ascii.eqb q NUL = false) by (destruct Hq; subst q; reflexivity).
  assert (Hq_nb : is_blank q = false) by (destruct Hq; subst q; reflexivity).
  assert (Hcstr : c_str (pad1 ++ print_int k
                         ++ String COMMA (pad2 ++ String q (v ++ String q trailing)))%string
                  = (pad1 ++ print_int k
                     ++ String COMMA (pad2 ++ String q (v ++ String q (c_str trailing))))%string).
  { rewrite c_str_app by (apply Hblank_nn; assumption).
    rewrite c_str_app.
    2:{ apply (all_chars_weaken key_char); [|apply print_int_chars].
        intros x Hx. rewrite (proj1 (proj2 (key_char_facts x Hx))). reflexivity. }
    cbn [c_str]. change (Ascii.eqb COMMA NUL) with false. cbn iota.
    rewrite c_str_app by (apply Hblank_nn; assumption).
    cbn [c_str]. rewrite Hq_nn.
    rewrite c_str_app by assumption.
    cbn [c_str]. rewrite Hq_nn. reflexivity. }
  unfold parseLoadLine. rewrite Hcstr.
  destruct (parseLoadLine_prefix k pad1 pad2
              (String q (v ++ String q (c_str trailing))) Hk Hp1 Hp2 Hq_nb)
    as [Hkey Hscan].
  cbv zeta in Hkey, Hscan. rewrite Hkey.
  destruct (strchr _ COMMA) as [s'|]; [|discriminate].
  cbn [option_map] in Hscan. injection Hscan as Hscan. rewrite Hscan.
  cbn [peek advance]. rewrite Hq_nn.
  replace (Ascii.eqb q SQUOTE || Ascii.eqb q DQUOTE) with true
    by (destruct Hq; subst q; reflexivity).
  rewrite string_find_app by assumption.
  rewrite string_erase_app. reflexivity.
Qed.

(** X11. Round trip for a quoted value.  A line made of optional blanks,
    the decimal form of a key that fits an [int], a comma, optional blanks
    and a value between two single quotes or two double quotes parses to
    exactly that key and that value, when the value holds neither that
    quote nor NUL and the key field no NUL; whatever follows the closing
    quote is ignored. *)
Theorem parseLoadLine_quoted_round_trip
    (k : Z) (v pad1 pad2 trailing : string) (q : ascii)
    (key : Z) (value : string) :
  in_int k ->
  q = SQUOTE \/ q = DQUOTE ->
  all_chars is_blank pad1 = true ->
  all_chars is_blank pad2 = true ->
  all_chars (fun c => negb (Ascii.eqb c q)) v = true ->
  all_chars (fun c => negb (Ascii.eqb c NUL)) v = true ->
  parseLoadLine RC_INVALID_FILE_FORMAT
    (pad1 ++ print_int k ++ String COMMA (pad2 ++ String q (v ++ String q trailing)))%string
    key value
  = (0, (k, v)).
Proof. apply parseLoadLine_quoted. Qed.

(** X12. Round trip for a bare value.  With the same key field, a value
    that is not quoted, does not start with a blank or a quote and holds
    neither a newline nor NUL is returned as it is, up to the end of the
    line; an empty value gives the empty string. *)
Theorem parseLoadLine_bare_round_trip
    (k : Z) (v pad1 pad2 : string) (key : Z) (value : string) :
  in_int k ->
  all_chars is_blank pad1 = true ->
  all_chars is_blank pad2 = true ->
  is_blank (peek v) = false ->
  peek v <> SQUOTE ->
  peek v <> DQUOTE ->
  all_chars (fun c => negb (Ascii.eqb c NEWLINE)) v = true ->
  all_chars (fun c => negb (Ascii.eqb c NUL)) v = true ->
  parseLoadLine RC_INVALID_FILE_FORMAT
    (pad1 ++ print_int k ++ String COMMA (pad2 ++ v))%string key value
  = (0, (k, v)).
Proof.
  intros Hk Hp1 Hp2 Hvb Hvs Hvd Hvnl Hvn.
  assert (Hblank_nn : forall s, all_chars is_blank s = true ->
                                all_chars (fun c => negb (Ascii.eqb c NUL)) s = true).
  { intros s. apply all_chars_weaken. intros c Hc.
    unfold is_blank in Hc. apply orb_true_iff in Hc.
    destruct Hc as [Hc|Hc]; apply Ascii.eqb_eq in Hc; subst c; reflexivity. }
  assert (Hcstr : c_str (pad1 ++ print_int k ++ String COMMA (pad2 ++ v))%string
                  = (pad1 ++ print_int k ++ String COMMA (pad2 ++ v))%string).
  { apply c_str_no_NUL. rewrite !all_chars_app. cbn [all_chars].
    rewrite all_chars_app, (Hblank_nn _ Hp1), (Hblank_nn _ Hp2), Hvn.
    rewrite (all_chars_weaken key_char _ (print_int k)); [reflexivity| |apply print_int_chars].
    intros x Hx. rewrite (proj1 (proj2 (key_char_facts x Hx))). reflexivity. }
  unfold parseLoadLine. rewrite Hcstr.
  destruct (parseLoadLine_prefix k pad1 pad2 v Hk Hp1 Hp2 Hvb) as [Hkey Hscan].
  cbv zeta in Hkey, Hscan. rewrite Hkey.
  destruct (strchr _ COMMA) as [s'|]; [|discriminate].
  cbn [option_map] in Hscan. injection Hscan as Hscan. rewrite Hscan.
  destruct v as [|c v]; [reflexivity|].
  cbn [peek] in *. cbn [all_chars] in Hvn.
  apply andb_true_iff in Hvn. destruct Hvn as [Hc _].
  apply negb_true_iff in Hc. rewrite Hc.
  replace (Ascii.eqb c SQUOTE) with false
    by (symmetry; apply Ascii.eqb_neq; assumption).
  replace (Ascii.eqb c DQUOTE) with false
    by (symmetry; apply Ascii.eqb_neq; assumption).
  cbn [orb]. rewrite string_find_none by assumption. reflexivity.
Qed.

End ParseLoadLineFacts.

(** * Properties of [select] and [load] *)

(** ** Comparisons *)

Lemma c_str_no_NUL_chars (s : string) : no_NUL (c_str s) = true.
Proof.
  unfold no_NUL. induction s as [|c s IH]; simpl; [reflexivity|].
  destruct (Ascii.eqb c NUL) eqn:E; simpl; [reflexivity|].
  rewrite E, IH. reflexivity.
Qed.

Lemma ascii_diff_compare (x y : ascii) :
  (Z.of_nat (nat_of_ascii x) - Z.of_nat (nat_of_ascii y) ?= 0)
  = Ascii.compare x y.
Proof.
  unfold nat_of_ascii, Ascii.compare.
  rewrite <- Z.compare_sub, !N_nat_Z. apply N2Z.inj_compare.
Qed.

Lemma nat_of_ascii_pos (x : ascii) :
  Ascii.eqb x NUL = false -> 0 < Z.of_nat (nat_of_ascii x).
Proof.
  intros Hx. apply Ascii.eqb_neq in Hx.
  destruct (nat_of_ascii x) eqn:E; [|lia].
  exfalso. apply Hx. rewrite <- (ascii_nat_embedding x), E. reflexivity.
Qed.

(** The sign of [strcmp] is the lexicographic order of the two C strings,
    characters compared as unsigned bytes. *)
Lemma strcmp_compare (a : string) :
  forall b : string,
    no_NUL a = true -> no_NUL b = true ->
    (strcmp a b ?= 0) = String.compare a b.
Proof.
  unfold no_NUL.
  induction a as [|x a IH]; intros [|y b] Ha Hb; cbn [strcmp String.compare all_chars] in *.
  - reflexivity.
  - apply andb_true_iff in Hb. destruct Hb as [Hy _]. apply negb_true_iff in Hy.
    pose proof (nat_of_ascii_pos y Hy). apply Z.compare_lt_iff. lia.
  - apply andb_true_iff in Ha. destruct Ha as [Hx _]. apply negb_true_iff in Hx.
    pose proof (nat_of_ascii_pos x Hx). apply Z.compare_gt_iff. lia.
  - apply andb_true_iff in Ha. destruct Ha as [_ Ha].
    apply andb_true_iff in Hb. destruct Hb as [_ Hb].
    destruct (Ascii.eqb x y) eqn:E.
    + apply Ascii.eqb_eq in E. subst y.
      unfold Ascii.compare. rewrite N.compare_refl. apply IH; assumption.
    + rewrite ascii_diff_compare.
      destruct (Ascii.compare x y) eqn:Ec; try reflexivity.
      apply Ascii.compare_eq_iff in Ec. subst y.
      rewrite Ascii.eqb_refl in E. discriminate.
Qed.

(** The six tests of [select] on [diff] against 0. *)
Lemma skip_test (op : Comparator) (diff : Z) :
  negb match op with
       | EQ => negb (diff =? 0)
       | NE => diff =? 0
       | GT => diff <=? 0
       | LT => diff >=? 0
       | GE => diff <? 0
       | LE => diff >? 0
       end
  = comparator_holds op (diff ?= 0).
Proof.
  destruct (Z.compare_spec diff 0) as [E|E|E]; destruct op;
    cbn [comparator_holds]; rewrite ?Z.geb_leb, ?Z.gtb_ltb;
    repeat match goal with
           | |- context [?a =? ?b] => destruct (Z.eqb_spec a b)
           | |- context [?a <=? ?b] => destruct (Z.leb_spec a b)
           | |- context [?a <? ?b] => destruct (Z.ltb_spec a b)
           end; cbn [negb]; try reflexivity; lia.
Qed.

(** With conditions in range, the loop over the conditions is their
    conjunction. *)
Lemma check_conds_forallb
    (cond : list SelCond) (key : Z) (value : string) (diff : Z) :
  Forall (cond_in_range key) cond ->
  fst (check_conds cond key value diff)
  = forallb (fun c => cond_met c key value) cond.
Proof.
  intros Hok. revert diff.
  induction Hok as [|c cond Hc _ IH]; intros diff; [reflexivity|].
  cbn [check_conds forallb].
  set (d := if sc_attr c =? 1 then int32 (key - atoi (c_str (sc_value c)))
            else if sc_attr c =? 2 then strcmp (c_str value) (c_str (sc_value c))
            else diff).
  assert (Hd : (d ?= 0) = (if sc_attr c =? 1
                           then key ?= atoi (c_str (sc_value c))
                           else String.compare (c_str value) (c_str (sc_value c)))).
  { subst d. destruct Hc as [[Ha Hr]|Ha]; rewrite Ha; cbn [Z.eqb Pos.eqb].
    - rewrite (int32_in_range _ Hr). symmetry. apply Z.compare_sub.
    - apply strcmp_compare; apply c_str_no_NUL_chars. }
  pose proof (skip_test (sc_comp c) d) as Hskip. rewrite Hd in Hskip.
  unfold cond_met.
  destruct (sc_attr c =? 1);
    rewrite <- Hskip;
    destruct (match sc_comp c with
              | EQ => negb (d =? 0) | NE => d =? 0 | GT => d <=? 0
              | LT => d >=? 0 | GE => d <? 0 | LE => d >? 0
              end); cbn [negb andb fst]; try reflexivity; apply IH.
Qed.


(** ** [select] *)

Section SelectFacts.
Context {RF : Type} `{RecordFile RF}.
Variables (attr : Z) (cond : list SelCond) (rf : RF).

(** While the reads succeed, the loop of [select] counts and prints the
    matching tuples of the record ids the scan visits. *)
Lemma select_loop_scan (fuel : nat) :
  forall (rid : RecordId) (rids : list RecordId) (count diff : Z) (out : list string),
    scan_rids fuel rf rid = Some rids ->
    Forall (fun r => 0 <= fst (rf_read rf r)) rids ->
    Forall (fun r => Forall (cond_in_range (fst (tuple_at rf r))) cond) rids ->
    0 <= count ->
    count + Z.of_nat (length rids) <= INT_MAX ->
    select_loop fuel attr cond rf rid count diff out
    = Some (inr (count + Z.of_nat (length (filter (matching cond) (map (tuple_at rf) rids)))),
            out ++ print_rows attr (filter (matching cond) (map (tuple_at rf) rids))).
Proof.
  induction fuel as [|fuel IH]; intros rid rids count diff out Hscan Hread Hcond Hc Hmax;
    [discriminate|].
  cbn [scan_rids] in Hscan. cbn [select_loop].
  destruct (rid_lt rid (rf_endRid rf)).
  - destruct (scan_rids fuel rf (rid_incr rid)) as [rids'|] eqn:Hscan'; [|discriminate].
    cbn [option_map] in Hscan. injection Hscan as <-.
    inversion Hread as [|? ? Hr Hread']; subst.
    inversion Hcond as [|? ? Hk Hcond']; subst.
    cbn [length map filter] in *.
    pose proof (check_conds_forallb cond (fst (tuple_at rf rid)) (snd (tuple_at rf rid)) diff Hk)
      as Hmet.
    unfold tuple_at in Hmet, Hk |- *.
    destruct (rf_read rf rid) as [rc [key value]]. cbn [fst snd] in *.
    replace (rc <? 0) with false by (symmetry; apply Z.ltb_ge; lia).
    destruct (check_conds cond key value diff) as [met diff']. cbn [fst] in Hmet.
    fold (tuple_at rf).
    assert (Hm : matching cond (key, value) = met) by (symmetry; exact Hmet).
    rewrite Hm.
    pose proof (filter_length_le (matching cond) (map (tuple_at rf) rids')) as Hfl.
    rewrite length_map in Hfl.
    destruct met.
    + rewrite int32_in_range by (unfold in_int, INT_MIN, INT_MAX in *; lia).
      rewrite (IH _ rids') by (assumption || lia).
      cbn [length]. unfold print_rows. cbn [flat_map fst snd].
      rewrite <- app_assoc. do 2 f_equal. f_equal. lia.
    + rewrite (IH _ rids') by (assumption || lia). reflexivity.
  - injection Hscan as <-. cbn [map filter length]. unfold print_rows. cbn [flat_map].
    rewrite Z.add_0_r, app_nil_r. reflexivity.
Qed.

(** When the read of a record id fails after the reads before it succeeded,
    the loop leaves with the error and with the rows printed so far. *)
Lemma select_loop_read_error (pre : list RecordId) :
  forall (fuel : nat) (rid r : RecordId) (post : list RecordId)
         (count diff : Z) (out : list string),
    scan_rids fuel rf rid = Some (pre ++ r :: post) ->
    Forall (fun r => 0 <= fst (rf_read rf r)) pre ->
    Forall (fun r => Forall (cond_in_range (fst (tuple_at rf r))) cond) pre ->
    fst (rf_read rf r) < 0 ->
    select_loop fuel attr cond rf rid count diff out
    = Some (inl (fst (rf_read rf r)),
            out ++ print_rows attr (filter (matching cond) (map (tuple_at rf) pre))).
Proof.
  induction pre as [|p pre IH]; intros fuel rid r post count diff out Hscan Hread Hcond Hfail.
  - destruct fuel as [|fuel]; [discriminate|].
    cbn [scan_rids app] in Hscan. cbn [select_loop].
    destruct (rid_lt rid (rf_endRid rf)); [|discriminate].
    destruct (scan_rids fuel rf (rid_incr rid)); [|discriminate].
    cbn [option_map] in Hscan. injection Hscan as -> _.
    destruct (rf_read rf r) as [rc [key value]]. cbn [fst] in *.
    replace (rc <? 0) with true by (symmetry; apply Z.ltb_lt; lia).
    cbn [map filter]. unfold print_rows. cbn [flat_map].
    rewrite app_nil_r. reflexivity.
  - destruct fuel as [|fuel]; [discriminate|].
    cbn [scan_rids app] in Hscan. cbn [select_loop].
    destruct (rid_lt rid (rf_endRid rf)); [|discriminate].
    destruct (scan_rids fuel rf (rid_incr rid)) as [rids'|] eqn:Hscan'; [|discriminate].
    cbn [option_map] in Hscan. injection Hscan as -> ->.
    inversion Hread as [|? ? Hr Hread']; subst.
    inversion Hcond as [|? ? Hk Hcond']; subst.
    cbn [map filter].
    pose proof (check_conds_forallb cond (fst (tuple_at rf p)) (snd (tuple_at rf p)) diff Hk)
      as Hmet.
    unfold tuple_at in Hmet, Hk |- *.
    destruct (rf_read rf p) as [rc [key value]]. cbn [fst snd] in *.
    replace (rc <? 0) with false by (symmetry; apply Z.ltb_ge; lia).
    destruct (check_conds cond key value diff) as [met diff']. cbn [fst] in Hmet.
    fold (tuple_at rf).
    assert (Hm : matching cond (key, value) = met) by (symmetry; exact Hmet).
    rewrite Hm.
    destruct met.
    + rewrite (IH fuel _ r post) by assumption.
      unfold print_rows. cbn [flat_map fst snd]. rewrite <- app_assoc. reflexivity.
    + rewrite (IH fuel _ r post) by assumption. reflexivity.
Qed.

End SelectFacts.

Section SelectTheorems.
Context {RF : Type} `{RecordFile RF}.



End SelectTheorems.

(** ** [load] *)

Section LoadFacts.
Context {RF : Type} `{RecordFile RF}.
Context {PF : Type} `{PageFile PF}.
Variable RC_INVALID_FILE_FORMAT : RC.

Lemma parseLoadLine_load_line (t : Z * string) (key : Z) (value : string) :
  loadable t ->
  parseLoadLine RC_INVALID_FILE_FORMAT (load_line t) key value = (0, t).
Proof.
  intros (Hk & Hq & Hn). destruct t as [k v]. cbn [fst snd] in *.
  exact (parseLoadLine_quoted RC_INVALID_FILE_FORMAT k v EmptyString EmptyString
           EmptyString DQUOTE key value Hk (or_intror eq_refl) eq_refl eq_refl Hq Hn).
Qed.

(** The plain loop over well-formed lines appends their tuples and goes on
    with the rest of the file. *)
Lemma load_lines_plain_app (tuples : list (Z * string)) (rest : list string) :
  forall (rf rf2 : RF) (key : Z) (value : string),
    Forall loadable tuples ->
    append_all tuples rf = Some rf2 ->
    exists (key' : Z) (value' : string),
      load_lines_plain RC_INVALID_FILE_FORMAT (map load_line tuples ++ rest) rf key value
      = load_lines_plain RC_INVALID_FILE_FORMAT rest rf2 key' value'.
Proof.
  induction tuples as [|[k v] tuples IH]; intros rf rf2 key value Hok Happ.
  - injection Happ as <-. exists key, value. reflexivity.
  - inversion Hok as [|? ? Ht Hok']; subst.
    cbn [map app load_lines_plain append_all] in *.
    rewrite (parseLoadLine_load_line (k, v) key value Ht).
    cbn [Z.ltb Z.compare].
    destruct (rf_append rf k v) as [[rc rid] rf1].
    destruct (rc <? 0); [discriminate|].
    apply (IH rf1 rf2 k v Hok' Happ).
Qed.

(** The same for the loop that also feeds the index: [insert] leaves the
    index as it is. *)
Lemma load_lines_index_app (tuples : list (Z * string)) (rest : list string) :
  forall (rf rf2 : RF) (bTree : BTreeIndex PF) (key : Z) (value : string),
    Forall loadable tuples ->
    append_all tuples rf = Some rf2 ->
    exists (key' : Z) (value' : string),
      load_lines_index RC_INVALID_FILE_FORMAT (map load_line tuples ++ rest)
                       rf bTree key value
      = load_lines_index RC_INVALID_FILE_FORMAT rest rf2 bTree key' value'.
Proof.
  induction tuples as [|[k v] tuples IH]; intros rf rf2 bTree key value Hok Happ.
  - injection Happ as <-. exists key, value. reflexivity.
  - inversion Hok as [|? ? Ht Hok']; subst.
    cbn [map app load_lines_index append_all] in *.
    rewrite (parseLoadLine_load_line (k, v) key value Ht).
    cbn [Z.ltb Z.compare].
    destruct (rf_append rf k v) as [[rc rid] rf1].
    destruct (rc <? 0); [discriminate|].
    unfold insert. cbn [Z.ltb Z.compare].
    apply (IH rf1 rf2 bTree k v Hok' Happ).
Qed.

(** X16. Loading without an index stores the tuples of the file.  When the
    table opens for writing and the load file holds one line
    [key,"value"] for each tuple of a list (keys within [int], values
    without double quote or NUL), and every append succeeds, [load] returns
    0 and leaves the record file that results from appending those tuples
    in the order of the file, closed; the index object is not touched. *)
Theorem load_plain_stores_tuples
    (table : string) (tuples : list (Z * string)) (key : Z)
    (rf rf1 rf2 : RF) (bTree : BTreeIndex PF) (rc0 : RC) :
  rf_open rf (table ++ ".tbl")%string "w" = (rc0, rf1) ->
  0 <= rc0 ->
  Forall loadable tuples ->
  append_all tuples rf1 = Some rf2 ->
  load RC_INVALID_FILE_FORMAT table (map load_line tuples) false key rf bTree
  = (0, snd (rf_close rf2), bTree).
Proof.
  intros Hopen Hrc Hok Happ. unfold load. rewrite Hopen.
  replace (rc0 <? 0) with false by (symmetry; apply Z.ltb_ge; lia).
  destruct (load_lines_plain_app tuples [] rf1 rf2 key EmptyString Hok Happ)
    as (key' & value' & Hloop).
  rewrite app_nil_r in Hloop. rewrite Hloop. cbn [load_lines_plain].
  destruct (rf_close rf2) as [rcc rf3]. reflexivity.
Qed.

(** X17. A line without a comma stops [load] where it stands.  With an
    index asked for, when both files open, the lines before the bad one are
    well formed and their appends succeed, [load] returns
    [RC_INVALID_FILE_FORMAT]; the tuples of the lines before have been
    appended, the lines after are not read, and neither the record file nor
    the index is closed: both are returned as the loop left them. *)
Theorem load_bad_line_stops
    (table : string) (tuples : list (Z * string)) (bad : string)
    (rest : list string) (key : Z)
    (rf rf1 rf2 : RF) (bTree bTree1 : BTreeIndex PF) (rc0 rc1 : RC) :
  RC_INVALID_FILE_FORMAT < 0 ->
  rf_open rf (table ++ ".tbl")%string "w" = (rc0, rf1) ->
  0 <= rc0 ->
  open (table ++ ".idx")%string "w" bTree = (rc1, bTree1) ->
  0 <= rc1 ->
  Forall loadable tuples ->
  append_all tuples rf1 = Some rf2 ->
  ~ In COMMA (chars (c_str bad)) ->
  load RC_INVALID_FILE_FORMAT table (map load_line tuples ++ bad :: rest) true
       key rf bTree
  = (RC_INVALID_FILE_FORMAT, rf2, bTree1).
Proof.
  intros Hneg Hopen Hrc0 Hidx Hrc1 Hok Happ Hbad. unfold load. rewrite Hopen.
  replace (rc0 <? 0) with false by (symmetry; apply Z.ltb_ge; lia).
  rewrite Hidx.
  replace (rc1 <? 0) with false by (symmetry; apply Z.ltb_ge; lia).
  destruct (load_lines_index_app tuples (bad :: rest) rf1 rf2 bTree1 key EmptyString
              Hok Happ) as (key' & value' & Hloop).
  rewrite Hloop. cbn [load_lines_index].
  rewrite (parseLoadLine_no_comma_eq RC_INVALID_FILE_FORMAT bad key' value' Hbad).
  replace (RC_INVALID_FILE_FORMAT <? 0) with true by (symmetry; apply Z.ltb_lt; lia).
  reflexivity.
Qed.

(** X18. Loading with an index leaves no key in the index.  When both files
    open, the lines are well formed and the appends succeed, [load] returns
    0 whatever the close of the index returns, and the index it leaves is
    the one that opening and closing the index file alone would leave: its
    root and height are those found at [open], whatever the tuples. *)
Theorem load_index_ignores_tuples
    (table : string) (tuples : list (Z * string)) (key : Z)
    (rf rf1 rf2 : RF) (bTree bTree1 : BTreeIndex PF) (rc0 rc1 : RC) :
  rf_open rf (table ++ ".tbl")%string "w" = (rc0, rf1) ->
  0 <= rc0 ->
  open (table ++ ".idx")%string "w" bTree = (rc1, bTree1) ->
  0 <= rc1 ->
  Forall loadable tuples ->
  append_all tuples rf1 = Some rf2 ->
  load RC_INVALID_FILE_FORMAT table (map load_line tuples) true key rf bTree
  = (0, snd (rf_close rf2), snd (close bTree1))
  /\ getRoot (snd (close bTree1)) = getRoot bTree1
  /\ getHeight (snd (close bTree1)) = getHeight bTree1.
Proof.
  intros Hopen Hrc0 Hidx Hrc1 Hok Happ. split; [|apply close_fields].
  unfold load. rewrite Hopen.
  replace (rc0 <? 0) with false by (symmetry; apply Z.ltb_ge; lia).
  rewrite Hidx.
  replace (rc1 <? 0) with false by (symmetry; apply Z.ltb_ge; lia).
  destruct (load_lines_index_app tuples [] rf1 rf2 bTree1 key EmptyString Hok Happ)
    as (key' & value' & Hloop).
  rewrite app_nil_r in Hloop. rewrite Hloop. cbn [load_lines_index].
  destruct (close bTree1) as [rcb bTree2].
  destruct (rf_close rf2) as [rcc rf3]. reflexivity.
Qed.

End LoadFacts.

(** * Further runs on the in-memory files *)

Lemma open_loads_encoded_metadata_witness :
  open "movie.idx" "w" reused_index
  = (0, {| pf := snd (mem_open scenario_file "movie.idx" "w");
           rootPid := 3; treeHeight := 2;
           buffer := int_bytes 3 ++ int_bytes 2 ++ skipn 8 (page_of_ints [3; 2]) |}).
Proof.
  apply (open_loads_encoded_metadata reused_index "movie.idx" "w" 0 0).
  - reflexivity.
  - lia.
  - vm_compute. discriminate.
  - vm_compute. reflexivity.
  - lia.
  - vm_compute. split; [reflexivity|discriminate].
  - vm_compute. split; discriminate.
Defined.

Lemma open_invalid_metadata_keeps_previous_tree_witness :
  open "movie.idx" "r" reused_on_blank
  = (0, {| pf := snd (mem_open blank_file "movie.idx" "r");
           rootPid := 7; treeHeight := 9; buffer := zero_buffer MEM_PAGE_SIZE |}).
Proof.
  apply (open_invalid_metadata_keeps_previous_tree reused_on_blank "movie.idx" "r" 0 0).
  - reflexivity.
  - lia.
  - vm_compute. discriminate.
  - reflexivity.
  - lia.
  - left. vm_compute. discriminate.
Defined.


(** On page 0 of the scenario file, read as a leaf, the output arguments 99
    and (9, 9) are overwritten before InvalidCursor is returned. *)
Lemma readForward_invalid_cursor_after_output_witness :
  readForward mem_codes flat_layout cursor0 99 {| rid_pid := 9; rid_sid := 9 |}
              scenario_index
  = (RC_INVALID_CURSOR mem_codes, cursor0, (0, rid0), scenario_index).
Proof.
  etransitivity.
  - apply (readForward_invalid_cursor_after_output mem_codes flat_layout
             scenario_index cursor0 99 {| rid_pid := 9; rid_sid := 9 |} 0
             (snd (leaf_read BTLeafNode_new 0 (pf scenario_index)))).
    + vm_compute. reflexivity.
    + lia.
    + vm_compute. discriminate.
    + vm_compute. split; [discriminate|reflexivity].
  - vm_compute. reflexivity.
Defined.

Lemma locate_then_readForward_found_witness :
  exists (found next : IndexCursor) (rid' : RecordId),
    locate mem_codes flat_layout 40 cursor0 scenario_index
    = Some (0, found, scenario_index)
    /\ readForward mem_codes flat_layout found 0 rid0 scenario_index
       = (0, next, (40, rid'), scenario_index).
Proof.
  apply (locate_then_readForward_found mem_codes flat_layout scenario_index
           40 cursor0 0 rid0 2 0
           (snd (leaf_read BTLeafNode_new 2 (pf scenario_index))) 0).
  - vm_compute. split; discriminate.
  - vm_compute. reflexivity.
  - vm_compute. reflexivity.
  - lia.
  - lia.
  - vm_compute. discriminate.
  - vm_compute. reflexivity.
Defined.

(** Key 60 is above every key of the last leaf [40,50]: the cursor is
    (2, 2) and cannot be read. *)
Lemma locate_past_leaf_end_then_readForward_witness :
  locate mem_codes flat_layout 60 cursor0 scenario_index
  = Some (RC_NO_SUCH_RECORD mem_codes, {| pid := 2; eid := 2 |}, scenario_index)
  /\ readForward mem_codes flat_layout {| pid := 2; eid := 2 |} 0 rid0 scenario_index
     = (RC_INVALID_INDEX mem_codes, {| pid := 2; eid := 2 |}, (0, rid0), scenario_index).
Proof.
  pose proof (locate_past_leaf_end_then_readForward mem_codes flat_layout
                scenario_index 60 cursor0 0 rid0 2 0
                (snd (leaf_read BTLeafNode_new 2 (pf scenario_index)))) as W.
  cbv zeta in W.
  assert (E : leaf_getKeyCount flat_layout
                (snd (leaf_read BTLeafNode_new 2 (pf scenario_index))) = 2)
    by (vm_compute; reflexivity).
  rewrite E in W. apply W.
  - vm_compute. split; discriminate.
  - vm_compute. reflexivity.
  - vm_compute. reflexivity.
  - lia.
  - vm_compute. repeat constructor.
Defined.

Lemma locate_absent_then_readForward_next_key_witness :
  exists (at_ip next : IndexCursor) (key' : Z) (rid' : RecordId),
    locate mem_codes flat_layout 25 cursor0 scenario_index
    = Some (RC_NO_SUCH_RECORD mem_codes, at_ip, scenario_index)
    /\ readForward mem_codes flat_layout at_ip 0 rid0 scenario_index
       = (0, next, (key', rid'), scenario_index)
    /\ 25 < key'.
Proof.
  destruct (locate_absent_then_readForward_next_key mem_codes flat_layout
              scenario_index 25 cursor0 0 rid0 1 0
              (snd (leaf_read BTLeafNode_new 1 (pf scenario_index))))
    as (at_ip & next & key' & rid' & Hl & Hr & Hk & _).
  - vm_compute. split; discriminate.
  - vm_compute. reflexivity.
  - vm_compute. reflexivity.
  - lia.
  - lia.
  - vm_compute. discriminate.
  - vm_compute. reflexivity.
  - vm_compute. apply Exists_cons_tl. apply Exists_cons_tl. apply Exists_cons_hd.
    discriminate.
  - exists at_ip, next, key', rid'. repeat split; assumption.
Defined.

Lemma readForward_walks_leaf_witness :
  readForward_n mem_codes flat_layout 3 {| pid := 1; eid := 0 |} 0 rid0 scenario_index
  = ([ (10, {| rid_pid := 1; rid_sid := 0 |});
       (20, {| rid_pid := 1; rid_sid := 1 |});
       (30, {| rid_pid := 1; rid_sid := 2 |}) ],
     {| pid := 2; eid := 0 |}, 0).
Proof.
  change 3%nat
    with (length (leaf_entries (leaf_data flat_layout
                    (snd (leaf_read BTLeafNode_new 1 (pf scenario_index)))))).
  etransitivity.
  - apply (readForward_walks_leaf mem_codes flat_layout scenario_index 1 0
             (snd (leaf_read BTLeafNode_new 1 (pf scenario_index))) 0 rid0).
    + vm_compute. reflexivity.
    + lia.
    + lia.
    + vm_compute. split; [reflexivity|discriminate].
  - vm_compute. reflexivity.
Defined.

Lemma locate_io_error_keeps_cursor_witness :
  locate mem_codes flat_layout 40 cursor0 dangling_index
  = Some (IOError, cursor0, dangling_index).
Proof.
  apply (locate_io_error_keeps_cursor mem_codes flat_layout dangling_index 40 cursor0
           IOError).
  - vm_compute. split; discriminate.
  - reflexivity.
  - right. exists 9. split; vm_compute; reflexivity.
Defined.



Lemma parseLoadLine_quoted_round_trip_witness :
  parseLoadLine MEM_INVALID_FILE_FORMAT
    (" " ++ print_int (-272)
     ++ String COMMA (" " ++ String SQUOTE ("Baby, Take a Bow"
                                        ++ String SQUOTE " trailing")))%string
    0 "old"
  = (0, (-272, "Baby, Take a Bow"%string)).
Proof.
  apply (parseLoadLine_quoted_round_trip MEM_INVALID_FILE_FORMAT (-272)
           "Baby, Take a Bow" " " " " " trailing" SQUOTE 0 "old").
  - vm_compute. split; discriminate.
  - left. reflexivity.
  - reflexivity.
  - reflexivity.
  - reflexivity.
  - reflexivity.
Defined.

Lemma parseLoadLine_bare_round_trip_witness :
  parseLoadLine MEM_INVALID_FILE_FORMAT
    (EmptyString ++ print_int 5 ++ String COMMA (" " ++ "plain value"))%string
    0 "old"
  = (0, (5, "plain value"%string)).
Proof.
  apply (parseLoadLine_bare_round_trip MEM_INVALID_FILE_FORMAT 5
           "plain value" EmptyString " " 0 "old").
  - vm_compute. split; discriminate.
  - reflexivity.
  - reflexivity.
  - reflexivity.
  - discriminate.
  - discriminate.
  - reflexivity.
  - reflexivity.
Defined.


Ltac each_element :=
  repeat (first [apply Forall_nil | apply Forall_cons; cbv beta]).

Ltac in_range_cond :=
  each_element; left; (split; [reflexivity|vm_compute; split; discriminate]).

Ltac loadable_tuples :=
  each_element;
  (split; [vm_compute; split; discriminate|split; reflexivity]).



Lemma load_plain_stores_tuples_witness :
  load MEM_INVALID_FILE_FORMAT "movie" (map load_line movie_tuples) false 0
       empty_table (@BTreeIndex_new MemFile _)
  = (0, movie_table, @BTreeIndex_new MemFile _).
Proof.
  etransitivity.
  - apply (load_plain_stores_tuples MEM_INVALID_FILE_FORMAT "movie" movie_tuples 0
             empty_table (snd (mr_open empty_table "movie.tbl" "w"))
             movie_table_written BTreeIndex_new 0).
    + reflexivity.
    + lia.
    + loadable_tuples.
    + vm_compute. reflexivity.
  - vm_compute. reflexivity.
Defined.

(** A file whose second line has no comma: the first tuple is stored, the
    third line is not read, and both files stay open. *)
Lemma load_bad_line_stops_witness :
  load MEM_INVALID_FILE_FORMAT "movie"
       (map load_line [(272, "Baby Take a Bow"%string)]
        ++ "oops"%string :: [load_line (2342, "Last Ride, The"%string)])
       true 0 empty_table (@BTreeIndex_new MemFile _)
  = (MEM_INVALID_FILE_FORMAT,
     {| mr_tuples := [(272, "Baby Take a Bow"%string)]; mr_opened := true;
        mr_writable := true; mr_damaged := [] |},
     empty_index).
Proof.
  apply (load_bad_line_stops MEM_INVALID_FILE_FORMAT "movie"
           [(272, "Baby Take a Bow"%string)] "oops"
           [load_line (2342, "Last Ride, The"%string)] 0
           empty_table (snd (mr_open empty_table "movie.tbl" "w")) _
           BTreeIndex_new empty_index 0 0).
  - reflexivity.
  - reflexivity.
  - lia.
  - reflexivity.
  - lia.
  - loadable_tuples.
  - vm_compute. reflexivity.
  - vm_compute. intuition discriminate.
Defined.

(** Loading the three movies with an index: the index file ends with its
    metadata page only, root -1 and height 0. *)
Lemma load_index_ignores_tuples_witness :
  load MEM_INVALID_FILE_FORMAT "movie" (map load_line movie_tuples) true 0
       empty_table (@BTreeIndex_new MemFile _)
  = (0, movie_table, snd (close empty_index))
  /\ getRoot (snd (close empty_index)) = -1
  /\ getHeight (snd (close empty_index)) = 0
  /\ pf_endPid (pf (snd (close empty_index))) = 1.
Proof.
  destruct (load_index_ignores_tuples MEM_INVALID_FILE_FORMAT "movie" movie_tuples 0
              empty_table (snd (mr_open empty_table "movie.tbl" "w"))
              movie_table_written BTreeIndex_new empty_index 0 0)
    as (Hload & Hroot & Hheight).
  - reflexivity.
  - lia.
  - reflexivity.
  - lia.
  - loadable_tuples.
  - vm_compute. reflexivity.
  - split; [|split; [|split]].
    + rewrite Hload. vm_compute. reflexivity.
    + rewrite Hroot. reflexivity.
    + rewrite Hheight. reflexivity.
    + vm_compute. reflexivity.
Defined.
